(** * haconfig: the YAML + environment configuration binder

    A shallow embedding of [haconfig/config.go]: the name derivation
    ([toSnakeCase], [getEnvName], [buildPrefix]), the reflective field walk
    ([processStruct], [hasAnyEnvVar]), the coercion of environment strings
    ([setFieldValue], [setSliceValue]), [Load], [MustLoad] and [Validate],
    followed by the properties of the specification that concern them.

    Modelling conventions.
    - A Go [string] is a byte string ([string] of [ascii]).  The regular
      expressions of [toSnakeCase] only ever match ASCII bytes, so working
      byte-wise agrees with Go's rune-wise matching.  [strings.ToUpper] and
      [strings.ToLower] are modelled on ASCII letters (bytes above 127 are
      kept): field names and prefixes are taken to be ASCII identifiers.
    - A [reflect.Value] is a pair of a type descriptor [ty] and a [value].
      Record types are finite trees, so recursive record types are not
      part of the embedding, and a record is a tree of values: two pointer
      fields never share their target.
    - Go mutates the target in place and returns an [error]; here every
      operation returns the new value together with [option error], so the
      partial mutation that precedes a failure is visible.  A call that may
      panic returns an [outcome].
    - [int] and [uint] are 64 bits wide (amd64, arm64).
    - The process environment is a finite map ([gmap]) from names to
      values, the custom mapping of the binder likewise.
    - Library functions whose results are only passed on (the parsers of
      floats, durations and times, the YAML decoder) are the members of
      the class [Platform]; every property holds for every platform. *)

From Stdlib Require Import ZArith Lia Bool List Ascii String DecimalString.
From stdpp Require Import base option list strings gmap.

Local Open Scope string_scope.
Local Open Scope Z_scope.

(** ** Bytes and strings *)

Module Bytes.

Definition code (c : ascii) : N := Ascii.N_of_ascii c.

Definition in_range (lo hi : N) (c : ascii) : bool :=
  ((lo <=? code c) && (code c <=? hi))%N.

(** [[A-Z]] *)
Definition is_upper : ascii -> bool := in_range 65 90.
(** [[a-z]] *)
Definition is_lower : ascii -> bool := in_range 97 122.
(** [[0-9]] *)
Definition is_digit : ascii -> bool := in_range 48 57.
(** [[a-z0-9]] *)
Definition is_lower_or_digit (c : ascii) : bool := is_lower c || is_digit c.

Definition to_upper (c : ascii) : ascii :=
  if is_lower c then Ascii.ascii_of_N (code c - 32) else c.

Definition to_lower (c : ascii) : ascii :=
  if is_upper c then Ascii.ascii_of_N (code c + 32) else c.

Fixpoint map (f : ascii -> ascii) (s : string) : string :=
  match s with
  | EmptyString => EmptyString
  | String c s' => String (f c) (map f s')
  end.

(** [strings.ToUpper], [strings.ToLower] *)
Definition ToUpper : string -> string := map to_upper.
Definition ToLower : string -> string := map to_lower.

Definition is_empty (s : string) : bool :=
  match s with EmptyString => true | _ => false end.

Fixpoint rev_append (s acc : string) : string :=
  match s with
  | EmptyString => acc
  | String c s' => rev_append s' (String c acc)
  end.

Definition rev (s : string) : string := rev_append s EmptyString.

End Bytes.

(** ** Regular-expression replacement

    [regexp.ReplaceAllString] scans left to right; at each position it tries
    the expression, and on a match emits the expanded template and resumes
    after the match, otherwise it copies one byte and moves on.  Both
    expressions of [toSnakeCase] match at least two bytes, so no empty
    match occurs. *)

Module Regexp.

(** A match at the head of the input: the two capture groups and the
    input that follows the match. *)
Definition submatch : Type := string * string * string.

(** [([a-z0-9])([A-Z])] at the head of [s]. *)
Definition re1 (s : string) : option submatch :=
  match s with
  | String a (String b rest) =>
      if Bytes.is_lower_or_digit a && Bytes.is_upper b
      then Some (String a EmptyString, String b EmptyString, rest)
      else None
  | _ => None
  end.

(** The tail of [([A-Z]+)([A-Z][a-z])] once one upper-case byte has been
    taken into group 1 ([acc] holds group 1 reversed).  The [+] is greedy:
    it first tries to take one more byte, and gives it back when the rest
    of the expression then fails. *)
Fixpoint re2_more (acc : string) (s : string) : option submatch :=
  match s with
  | String c s' =>
      if Bytes.is_upper c then
        match re2_more (String c acc) s' with
        | Some m => Some m
        | None =>
            match s' with
            | String d s'' =>
                if Bytes.is_lower d
                then Some (Bytes.rev acc, String c (String d EmptyString), s'')
                else None
            | EmptyString => None
            end
        end
      else None
  | EmptyString => None
  end.

(** [([A-Z]+)([A-Z][a-z])] at the head of [s]. *)
Definition re2 (s : string) : option submatch :=
  match s with
  | String c s' =>
      if Bytes.is_upper c then re2_more (String c EmptyString) s' else None
  | EmptyString => None
  end.

(** The template [${1}_${2}]. *)
Definition expand (m : submatch) : string :=
  match m with (g1, g2, _) => g1 ++ "_" ++ g2 end.

(** The scan of [ReplaceAllString].  [fuel] bounds the number of steps;
    every step consumes at least one byte, so the length of the input is
    enough. *)
Fixpoint replace_loop (re : string -> option submatch) (fuel : nat)
    (s : string) : string :=
  match fuel with
  | O => s
  | S fuel' =>
      match s with
      | EmptyString => EmptyString
      | String c s' =>
          match re s with
          | Some m => expand m ++ replace_loop re fuel' (snd m)
          | None => String c (replace_loop re fuel' s')
          end
      end
  end.

Definition ReplaceAllString (re : string -> option submatch) (s : string)
    : string :=
  replace_loop re (String.length s) s.

End Regexp.

(** ** The binder and its name derivation *)

(** [type Config struct] (the unused [data] field is left out). *)
Record Config : Type := mkConfig {
  envPrefix : string;
  yamlFile : string;
  envMapping : gmap string string
}.

(** [New()] without options. *)
Definition New : Config :=
  {| envPrefix := ""; yamlFile := ""; envMapping := ∅ |}.

Definition WithEnvPrefix (prefix : string) (c : Config) : Config :=
  {| envPrefix := prefix; yamlFile := yamlFile c; envMapping := envMapping c |}.

Definition WithYAMLFile (file : string) (c : Config) : Config :=
  {| envPrefix := envPrefix c; yamlFile := file; envMapping := envMapping c |}.

Definition WithEnvMapping (mapping : gmap string string) (c : Config) : Config :=
  {| envPrefix := envPrefix c; yamlFile := yamlFile c; envMapping := mapping |}.

Definition toSnakeCase (str : string) : string :=
  if Bytes.is_empty str then ""
  else
    let result := Regexp.ReplaceAllString Regexp.re1 str in
    let result := Regexp.ReplaceAllString Regexp.re2 result in
    Bytes.ToLower result.

Definition getEnvName (c : Config) (fieldName prefix : string) : string :=
  let envName := toSnakeCase fieldName in
  let envName :=
    if Bytes.is_empty prefix then envName else prefix ++ "_" ++ envName in
  let envName :=
    if Bytes.is_empty (envPrefix c) then envName
    else envPrefix c ++ "_" ++ envName in
  Bytes.ToUpper envName.

Definition buildPrefix (currentPrefix fieldName : string) : string :=
  let snakeName := toSnakeCase fieldName in
  if Bytes.is_empty currentPrefix then snakeName
  else currentPrefix ++ "_" ++ snakeName.

(** The name a leaf field is looked up under: the custom mapping, keyed by
    the bare field name, replaces the derived name. *)
Definition envNameOf (c : Config) (fieldName prefix : string) : string :=
  match envMapping c !! fieldName with
  | Some customName => customName
  | None => getEnvName c fieldName prefix
  end.

(** ** Library functions the binder calls on strings *)

Module Strings.

(** [strings.Split(s, ",")]: the pieces between commas; never empty. *)
Fixpoint Split_comma (s : string) : list string :=
  match s with
  | EmptyString => [EmptyString]
  | String c s' =>
      let pieces := Split_comma s' in
      if Ascii.eqb c "," then EmptyString :: pieces
      else match pieces with
           | piece :: others => String c piece :: others
           | [] => [String c EmptyString]
           end
  end.

(** The UTF-8 encodings of the runes for which [unicode.IsSpace] holds:
    tab, LF, VT, FF, CR, space, U+0085, U+00A0, U+1680, U+2000..U+200A,
    U+2028, U+2029, U+202F, U+205F, U+3000. *)
Definition space_runes : list (list N) :=
  ([[9]; [10]; [11]; [12]; [13]; [32];
    [194; 133]; [194; 160]; [225; 154; 128];
    [226; 128; 128]; [226; 128; 129]; [226; 128; 130]; [226; 128; 131];
    [226; 128; 132]; [226; 128; 133]; [226; 128; 134]; [226; 128; 135];
    [226; 128; 136]; [226; 128; 137]; [226; 128; 138];
    [226; 128; 168]; [226; 128; 169]; [226; 128; 175]; [226; 129; 159];
    [227; 128; 128]])%N.

(** [s] without the bytes [p] in front, when it starts with them. *)
Fixpoint strip_prefix (p : list N) (s : string) : option string :=
  match p with
  | [] => Some s
  | b :: p' =>
      match s with
      | String c s' => if (Bytes.code c =? b)%N then strip_prefix p' s' else None
      | EmptyString => None
      end
  end.

Fixpoint strip_first (ps : list (list N)) (s : string) : option string :=
  match ps with
  | [] => None
  | p :: ps' =>
      match strip_prefix p s with
      | Some s' => Some s'
      | None => strip_first ps' s
      end
  end.

(** Drops leading runes taken from [ps]. *)
Fixpoint trim_left (ps : list (list N)) (fuel : nat) (s : string) : string :=
  match fuel with
  | O => s
  | S fuel' =>
      match strip_first ps s with
      | Some s' => trim_left ps fuel' s'
      | None => s
      end
  end.

(** [strings.TrimSpace]: white space is dropped at both ends; the right
    end is treated as the left end of the reversed string. *)
Definition TrimSpace (s : string) : string :=
  let s1 := trim_left space_runes (String.length s) s in
  Bytes.rev (trim_left (map (@rev N) space_runes) (String.length s1) (Bytes.rev s1)).

End Strings.

Module Strconv.

(** [strconv.ParseBool] *)
Definition ParseBool (s : string) : option bool :=
  if existsb (String.eqb s) ["1"; "t"; "T"; "TRUE"; "true"; "True"] then Some true
  else if existsb (String.eqb s) ["0"; "f"; "F"; "FALSE"; "false"; "False"] then Some false
  else None.

(** The value of a string of decimal digits. *)
Fixpoint digits (acc : Z) (s : string) : option Z :=
  match s with
  | EmptyString => Some acc
  | String c s' =>
      if Bytes.is_digit c
      then digits (10 * acc + (Z.of_N (Bytes.code c) - 48)) s'
      else None
  end.

Definition digits1 (s : string) : option Z :=
  if Bytes.is_empty s then None else digits 0 s.

(** [strconv.ParseUint(s, 10, 64)]: [None] stands for any error (syntax
    or range); the binder only tests [err != nil]. *)
Definition ParseUint (s : string) : option Z :=
  match digits1 s with
  | Some n => if n <? 2 ^ 64 then Some n else None
  | None => None
  end.

(** [strconv.ParseInt(s, 10, 64)]: one optional sign, then digits. *)
Definition ParseInt (s : string) : option Z :=
  match s with
  | EmptyString => None
  | String c s' =>
      let neg := Ascii.eqb c "-" in
      let body := if Ascii.eqb c "+" || neg then s' else s in
      match digits1 body with
      | Some un =>
          if neg then (if un <=? 2 ^ 63 then Some (- un) else None)
          else (if un <? 2 ^ 63 then Some un else None)
      | None => None
      end
  end.

(** [%d] of a non-negative index. *)
Definition Itoa (i : nat) : string :=
  DecimalString.NilEmpty.string_of_uint (Nat.to_uint i).

End Strconv.

(** ** Types, values and errors *)

Inductive intKind : Set := Int | Int8 | Int16 | Int32 | Int64.
Inductive uintKind : Set := Uint | Uint8 | Uint16 | Uint32 | Uint64.
Inductive floatKind : Set := Float32 | Float64.

(** The remaining kinds, whose values the binder never looks into. *)
Inductive otherKind : Set :=
  | Uintptr | Complex64 | Complex128 | Chan | Func | Interface
  | Map | UnsafePointer.

Definition int_bits (k : intKind) : Z :=
  match k with Int8 => 8 | Int16 => 16 | Int32 => 32 | Int | Int64 => 64 end.

Definition uint_bits (k : uintKind) : Z :=
  match k with Uint8 => 8 | Uint16 => 16 | Uint32 => 32 | Uint | Uint64 => 64 end.

(** A [reflect.Type].  [TDuration] is [time.Duration] (kind [Int64]).
    [TStruct isTime fs] is a struct type with the fields [fs]; [isTime]
    tells whether it is the type [time.Time], which the source singles out
    by comparing with [reflect.TypeOf(time.Time{})].  A field carries its
    declared name, the value of its [required] tag (empty when the tag is
    absent) and its type. *)
Inductive ty : Type :=
  | TString
  | TBool
  | TInt (k : intKind)
  | TDuration
  | TUint (k : uintKind)
  | TFloat (k : floatKind)
  | TSlice (elem : ty)
  | TArray (len : nat) (elem : ty)
  | TPtr (elem : ty)
  | TStruct (isTime : bool) (fs : fields)
  | TOther (k : otherKind)
with fields : Type :=
  | FNil
  | FCons (Name : string) (required : string) (Type_ : ty) (rest : fields).

Scheme ty_fields_ind := Induction for ty Sort Prop
  with fields_ty_ind := Induction for fields Sort Prop.

(** [reflect.Kind.String], for the kinds [setFieldValue] rejects. *)
Definition Kind_String (t : ty) : string :=
  match t with
  | TArray _ _ => "array"
  | TOther Uintptr => "uintptr"
  | TOther Complex64 => "complex64"
  | TOther Complex128 => "complex128"
  | TOther Chan => "chan"
  | TOther Func => "func"
  | TOther Interface => "interface"
  | TOther Map => "map"
  | TOther UnsafePointer => "unsafe.Pointer"
  | _ => ""
  end.

(** The [i]-th field: name, [required] tag and type. *)
Fixpoint Field (fs : fields) (i : nat) : option (string * string * ty) :=
  match fs, i with
  | FNil, _ => None
  | FCons name tag t _, O => Some (name, tag, t)
  | FCons _ _ _ rest, S i' => Field rest i'
  end.

(** The struct [time.Time] and what it points to, as reflection sees them
    (package [time]: [Time], [Location], [zone], [zoneTrans]). *)
Definition zone_fields : fields :=
  FCons "name" "" TString
    (FCons "offset" "" (TInt Int) (FCons "isDST" "" TBool FNil)).

Definition zoneTrans_fields : fields :=
  FCons "when" "" (TInt Int64)
    (FCons "index" "" (TUint Uint8)
       (FCons "isstd" "" TBool (FCons "isutc" "" TBool FNil))).

Definition Location_fields : fields :=
  FCons "name" "" TString
    (FCons "zone" "" (TSlice (TStruct false zone_fields))
       (FCons "tx" "" (TSlice (TStruct false zoneTrans_fields))
          (FCons "extend" "" TString
             (FCons "cacheStart" "" (TInt Int64)
                (FCons "cacheEnd" "" (TInt Int64)
                   (FCons "cacheZone" "" (TPtr (TStruct false zone_fields))
                      FNil)))))).

Definition Time_fields : fields :=
  FCons "wall" "" (TUint Uint64)
    (FCons "ext" "" (TInt Int64)
       (FCons "loc" "" (TPtr (TStruct false Location_fields)) FNil)).

Definition TTime : ty := TStruct true Time_fields.

(** The contents of a [reflect.Value].  Integers are kept as mathematical
    integers within the range of their type, a float as the bit pattern of
    its [float64] value, a slice or pointer as [None] when nil.  [VOther]
    stands for a value of one of the kinds of [otherKind]; it only records
    whether it is the zero value of its type (nil, or the number 0). *)
#[warnings="-register-all"]
Inductive value : Type :=
  | VString (s : string)
  | VBool (b : bool)
  | VInt (n : Z)
  | VUint (n : Z)
  | VFloat (bits : Z)
  | VSlice (elems : option (list value))
  | VArray (elems : list value)
  | VPtr (pointee : option value)
  | VStruct (vals : list value)
  | VOther (isZero : bool).

(** [fmt.Errorf]: a plain message, or a message followed by [: %w]. *)
Inductive error : Type :=
  | Errorf (msg : string)
  | Wrapf (msg : string) (cause : error).

(** The [Error()] method. *)
Fixpoint Error (e : error) : string :=
  match e with
  | Errorf msg => msg
  | Wrapf msg cause => msg ++ ": " ++ Error cause
  end.

(** [errors.Unwrap] *)
Definition Unwrap (e : error) : option error :=
  match e with
  | Errorf _ => None
  | Wrapf _ cause => Some cause
  end.

(** A call either returns or panics. *)
Inductive outcome (A : Type) : Type :=
  | Returned (a : A)
  | Panicked (msg : string).
Arguments Returned {A} a.
Arguments Panicked {A} msg.

(** [reflect.Zero] *)
Fixpoint zero (t : ty) : value :=
  match t with
  | TString => VString ""
  | TBool => VBool false
  | TInt _ | TDuration => VInt 0
  | TUint _ => VUint 0
  | TFloat _ => VFloat 0
  | TSlice _ => VSlice None
  | TArray n e => VArray (repeat (zero e) n)
  | TPtr _ => VPtr None
  | TStruct _ fs => VStruct (zeros fs)
  | TOther _ => VOther true
  end
with zeros (fs : fields) : list value :=
  match fs with
  | FNil => []
  | FCons _ _ t rest => zero t :: zeros rest
  end.

Definition int_in_range (bits n : Z) : bool :=
  (- 2 ^ (bits - 1) <=? n) && (n <? 2 ^ (bits - 1)).

Definition uint_in_range (bits n : Z) : bool :=
  (0 <=? n) && (n <? 2 ^ bits).

(** The value is one of the type. *)
Fixpoint has_type (t : ty) (v : value) : bool :=
  match t, v with
  | TString, VString _ => true
  | TBool, VBool _ => true
  | TInt k, VInt n => int_in_range (int_bits k) n
  | TDuration, VInt n => int_in_range 64 n
  | TUint k, VUint n => uint_in_range (uint_bits k) n
  | TFloat _, VFloat bits => uint_in_range 64 bits
  | TSlice e, VSlice None => true
  | TSlice e, VSlice (Some xs) => forallb (has_type e) xs
  | TArray n e, VArray xs => (length xs =? n)%nat && forallb (has_type e) xs
  | TPtr e, VPtr None => true
  | TPtr e, VPtr (Some x) => has_type e x
  | TStruct _ fs, VStruct vs => have_types fs vs
  | TOther _, VOther _ => true
  | _, _ => false
  end
with have_types (fs : fields) (vs : list value) : bool :=
  match fs, vs with
  | FNil, [] => true
  | FCons _ _ t rest, v :: vs' => has_type t v && have_types rest vs'
  | _, _ => false
  end.

(** What [SetInt] and [SetUint] store in a field of the given width: the
    conversion to the narrower type keeps the low bits. *)
Definition wrap_int (bits n : Z) : Z :=
  (n + 2 ^ (bits - 1)) mod 2 ^ bits - 2 ^ (bits - 1).

Definition wrap_uint (bits n : Z) : Z := n mod 2 ^ bits.

(** ** The surroundings of the binder *)

(** Library functions that are used as given: [strconv.ParseFloat(s, 64)]
    (the bits of the result), the conversion [float32(x)] (as the bits of
    the [float64] that equals it), [time.ParseDuration] (nanoseconds),
    [time.Parse layout s] and [yaml.Unmarshal], which decodes a document
    into a struct value and may have changed it when it fails.  [None]
    stands for a non-nil [err]. *)
Class Platform : Type := {
  ParseFloat : string -> option Z;
  toFloat32 : Z -> Z;
  ParseDuration : string -> option Z;
  time_Parse : string -> string -> option value;
  yaml_Unmarshal : string -> fields -> list value -> list value * option error;
  yaml_Unmarshal_typed : forall data fs vs,
    have_types fs vs = true ->
    have_types fs (fst (yaml_Unmarshal data fs vs)) = true
}.

(** What [os.ReadFile] can answer: an error for which [os.IsNotExist]
    holds, another error, or the bytes of the file. *)
Inductive ReadResult : Type :=
  | NotExist
  | ReadError (err : error)
  | Contents (data : string).

(** The process environment and the file system.  A variable may be set
    to the empty string, which differs from being unset. *)
Record OS : Type := mkOS {
  environ : gmap string string;
  ReadFile : string -> ReadResult
}.

(** [os.Getenv]: the value, or the empty string when the variable is
    not set. *)
Definition Getenv (os : OS) (key : string) : string :=
  default "" (environ os !! key).

(** What is passed as [cfg interface{}]: the nil interface, a pointer to
    a struct, a struct passed by value, or anything else (among them a nil
    pointer). *)
Inductive target : Type :=
  | NilInterface
  | StructPointer (fs : fields) (vs : list value)
  | StructValue (fs : fields) (vs : list value)
  | NotStruct.

(** A field is settable when its name is exported. *)
Definition CanSet (fieldName : string) : bool :=
  match fieldName with
  | String c _ => Bytes.is_upper c
  | EmptyString => false
  end.

Definition struct_vals (v : value) : list value :=
  match v with VStruct vs => vs | _ => [] end.

(** The loop of [setSliceValue] over the parts, from index [i] on: the
    elements of the new slice, and the error of the first part that
    fails.  (In the coercion functions [raw] is the string the source
    calls [value].) *)
Fixpoint setSliceElems (set : value -> string -> value * option error)
    (elemZero : value) (parts : list string) (i : nat)
    : list value * option error :=
  match parts with
  | [] => ([], None)
  | part :: parts' =>
      let part := Strings.TrimSpace part in
      let '(elem, err) := set elemZero part in
      match err with
      | Some e =>
          ([], Some (Wrapf ("invalid slice element at index " ++ Strconv.Itoa i) e))
      | None =>
          let '(elems, err') := setSliceElems set elemZero parts' (S i) in
          (elem :: elems, err')
      end
  end.

(** [setSliceValue], given how an element is set: the field receives the
    new slice only when every part was accepted. *)
Definition setSliceValue_with (set : value -> string -> value * option error)
    (elemZero : value) (field : value) (raw : string)
    : value * option error :=
  let parts := Strings.Split_comma raw in
  let '(slice, err) := setSliceElems set elemZero parts 0 in
  match err with
  | Some e => (field, Some e)
  | None => (VSlice (Some slice), None)
  end.

Definition time_layouts : list string :=
  ["2006-01-02T15:04:05Z07:00"; "2006-01-02 15:04:05"; "2006-01-02"; "15:04:05"].

Section Binder.

Context {P : Platform}.
Variable os : OS.
Variable c : Config.

(** [time.Parse] with RFC 3339 and then the three other layouts; the first
    that succeeds wins. *)
Fixpoint parse_time (layouts : list string) (s : string) : option value :=
  match layouts with
  | [] => None
  | layout :: layouts' =>
      match time_Parse layout s with
      | Some t => Some t
      | None => parse_time layouts' s
      end
  end.

Fixpoint setFieldValue (t : ty) (field : value) (raw : string)
    : value * option error :=
  match t with
  | TString => (VString raw, None)
  | TBool =>
      match Strconv.ParseBool raw with
      | Some boolVal => (VBool boolVal, None)
      | None => (field, Some (Errorf ("invalid bool value: " ++ raw)))
      end
  | TDuration =>
      match ParseDuration raw with
      | Some duration => (VInt duration, None)
      | None => (field, Some (Errorf ("invalid duration value: " ++ raw)))
      end
  | TInt k =>
      match Strconv.ParseInt raw with
      | Some intVal => (VInt (wrap_int (int_bits k) intVal), None)
      | None => (field, Some (Errorf ("invalid int value: " ++ raw)))
      end
  | TUint k =>
      match Strconv.ParseUint raw with
      | Some uintVal => (VUint (wrap_uint (uint_bits k) uintVal), None)
      | None => (field, Some (Errorf ("invalid uint value: " ++ raw)))
      end
  | TFloat k =>
      match ParseFloat raw with
      | Some floatVal =>
          (VFloat (match k with Float32 => toFloat32 floatVal | Float64 => floatVal end),
           None)
      | None => (field, Some (Errorf ("invalid float value: " ++ raw)))
      end
  | TSlice elem =>
      setSliceValue_with (setFieldValue elem) (zero elem) field raw
  | TPtr elem =>
      let pointee :=
        match field with VPtr (Some x) => x | _ => zero elem end in
      let '(pointee', err) := setFieldValue elem pointee raw in
      (VPtr (Some pointee'), err)
  | TStruct true _ =>
      match parse_time time_layouts raw with
      | Some timeVal => (timeVal, None)
      | None => (field, Some (Errorf ("invalid time value: " ++ raw)))
      end
  | TStruct false _ => (field, None)
  | TArray _ _ | TOther _ =>
      (field, Some (Errorf ("unsupported field type: " ++ Kind_String t)))
  end.

Definition setSliceValue (elem : ty) (field : value) (raw : string)
    : value * option error :=
  setSliceValue_with (setFieldValue elem) (zero elem) field raw.

Definition setFieldFromEnv (t : ty) (field : value) (envName : string)
    : value * option error :=
  let envValue := Getenv os envName in
  if Bytes.is_empty envValue then (field, None)
  else setFieldValue t field envValue.

Fixpoint hasAnyEnvVar (fs : fields) (prefix : string) : bool :=
  match fs with
  | FNil => false
  | FCons fieldName _ t rest =>
      match t with
      | TStruct false sfs | TPtr (TStruct _ sfs) =>
          let newPrefix := buildPrefix prefix fieldName in
          if hasAnyEnvVar sfs newPrefix then true
          else hasAnyEnvVar rest prefix
      | _ =>
          let envName := envNameOf c fieldName prefix in
          if negb (Bytes.is_empty (Getenv os envName)) then true
          else hasAnyEnvVar rest prefix
      end
  end.

Fixpoint processStruct (fs : fields) (vs : list value) (prefix : string)
    : list value * option error :=
  match fs, vs with
  | FCons fieldName _ t rest, field :: vs' =>
      let continue (field' : value) :=
        let '(vs'', err) := processStruct rest vs' prefix in
        (field' :: vs'', err) in
      if negb (CanSet fieldName) then continue field
      else
        match t with
        | TStruct false sfs =>
            let newPrefix := buildPrefix prefix fieldName in
            let '(svs, err) := processStruct sfs (struct_vals field) newPrefix in
            match err with
            | Some e => (VStruct svs :: vs', Some e)
            | None => continue (VStruct svs)
            end
        | TPtr (TStruct _ sfs) =>
            let newPrefix := buildPrefix prefix fieldName in
            if hasAnyEnvVar sfs newPrefix then
              let pointee :=
                match field with
                | VPtr (Some x) => struct_vals x
                | _ => zeros sfs
                end in
              let '(svs, err) := processStruct sfs pointee newPrefix in
              match err with
              | Some e => (VPtr (Some (VStruct svs)) :: vs', Some e)
              | None => continue (VPtr (Some (VStruct svs)))
              end
            else continue field
        | _ =>
            let envName := envNameOf c fieldName prefix in
            let '(field', err) := setFieldFromEnv t field envName in
            match err with
            | Some e =>
                (field' :: vs', Some (Wrapf ("failed to set field " ++ fieldName) e))
            | None => continue field'
            end
        end
  | _, _ => (vs, None)
  end.

Definition loadFromEnv (fs : fields) (vs : list value)
    : list value * option error :=
  processStruct fs vs "".

Definition loadFromYAML (fs : fields) (vs : list value)
    : list value * option error :=
  match ReadFile os (yamlFile c) with
  | NotExist => (vs, None)
  | ReadError err => (vs, Some (Wrapf "failed to read YAML file" err))
  | Contents data =>
      let '(vs', err) := yaml_Unmarshal data fs vs in
      match err with
      | Some e => (vs', Some (Wrapf "failed to unmarshal YAML" e))
      | None => (vs', None)
      end
  end.

(** [Load]: the target as it is when the call ends, and the error. *)
Definition Load (cfg : target) : target * option error :=
  match cfg with
  | NilInterface => (cfg, Some (Errorf "config cannot be nil"))
  | StructPointer fs vs =>
      let '(vs1, err) :=
        if Bytes.is_empty (yamlFile c) then (vs, None)
        else loadFromYAML fs vs in
      match err with
      | Some e => (StructPointer fs vs1, Some (Wrapf "failed to load YAML" e))
      | None =>
          let '(vs2, err') := loadFromEnv fs vs1 in
          match err' with
          | Some e =>
              (StructPointer fs vs2, Some (Wrapf "failed to load from env" e))
          | None => (StructPointer fs vs2, None)
          end
      end
  | StructValue _ _ | NotStruct =>
      (cfg, Some (Errorf "config must be a pointer to struct"))
  end.

(** [MustLoad]: the target as [Load] leaves it, and whether the call
    returned or panicked with the formatted message. *)
Definition MustLoad (cfg : target) : target * outcome unit :=
  let '(cfg', err) := Load cfg in
  match err with
  | Some e => (cfg', Panicked ("failed to load configuration: " ++ Error e))
  | None => (cfg', Returned tt)
  end.

End Binder.

(** [LoadFromFile] and [LoadFromEnv] with their options already applied to
    [New]: the options are the [With...] functions above. *)
Definition LoadFromFile {P : Platform} (os : OS) (file : string)
    (opts : Config -> Config) (cfg : target) : target * option error :=
  Load os (opts (WithYAMLFile file New)) cfg.

Definition LoadFromEnv {P : Platform} (os : OS) (opts : Config -> Config)
    (fs : fields) (vs : list value) : list value * option error :=
  loadFromEnv os (opts New) fs vs.

(** ** Validation *)

(** Whether [==] is defined on values of the type: comparing two
    interface values that hold an uncomparable type panics. *)
Fixpoint comparable (t : ty) : bool :=
  match t with
  | TSlice _ => false
  | TArray _ e => comparable e
  | TStruct _ fs => comparable_fields fs
  | TOther Map | TOther Func => false
  | _ => true
  end
with comparable_fields (fs : fields) : bool :=
  match fs with
  | FNil => true
  | FCons _ _ t rest => comparable t && comparable_fields rest
  end.

(** [x == 0] on a float: plus and minus zero. *)
Definition float_is_zero (bits : Z) : bool :=
  (bits =? 0) || (bits =? 2 ^ 63).

Definition is_nil (v : value) : bool :=
  match v with
  | VSlice None | VPtr None => true
  | VOther isZero => isZero
  | _ => false
  end.

(** [v == reflect.Zero(t)] for a comparable type: struct values are
    compared field by field, leaving out the fields named [_]. *)
Fixpoint eq_zero (t : ty) (v : value) : bool :=
  match t, v with
  | TString, VString s => Bytes.is_empty s
  | TBool, VBool b => negb b
  | TInt _, VInt n | TDuration, VInt n | TUint _, VUint n => n =? 0
  | TFloat _, VFloat bits => float_is_zero bits
  | TPtr _, VPtr p => match p with None => true | Some _ => false end
  | TArray _ e, VArray xs => forallb (eq_zero e) xs
  | TStruct _ fs, VStruct vs => eq_zeros fs vs
  | TOther _, VOther isZero => isZero
  | _, _ => false
  end
with eq_zeros (fs : fields) (vs : list value) : bool :=
  match fs, vs with
  | FNil, _ => true
  | FCons name _ t rest, v :: vs' =>
      (String.eqb name "_" || eq_zero t v) && eq_zeros rest vs'
  | FCons _ _ _ _, [] => false
  end.

(** [isZeroValue].  [ro] tells that the value was reached through an
    unexported field, in which case [v.Interface()] panics. *)
Definition isZeroValue (ro : bool) (t : ty) (v : value) : outcome bool :=
  match t with
  | TString => Returned (match v with VString s => Bytes.is_empty s | _ => false end)
  | TBool => Returned (match v with VBool b => negb b | _ => false end)
  | TInt _ | TDuration => Returned (match v with VInt n => n =? 0 | _ => false end)
  | TUint _ => Returned (match v with VUint n => n =? 0 | _ => false end)
  | TFloat _ => Returned (match v with VFloat bits => float_is_zero bits | _ => false end)
  | TSlice _ | TPtr _
  | TOther Map | TOther Interface | TOther Chan | TOther Func =>
      Returned (is_nil v)
  | TStruct _ _ =>
      if ro then
        Panicked "reflect.Value.Interface: cannot return value obtained from unexported field or method"
      else if comparable t then Returned (eq_zero t v)
      else Panicked "runtime error: comparing uncomparable type"
  | TArray _ _ | TOther _ => Returned false
  end.

Definition buildFieldPath (prefix fieldName : string) : string :=
  if Bytes.is_empty prefix then fieldName else prefix ++ "." ++ fieldName.

(** [validateStruct].  Every field is visited, exported or not; [ro] is
    the read-only flag of the struct value, which an unexported field
    passes on to everything below it. *)
Fixpoint validateStruct (ro : bool) (fs : fields) (vs : list value)
    (prefix : string) : outcome (option error) :=
  match fs, vs with
  | FCons fieldName tag t rest, field :: vs' =>
      let ro' := ro || negb (CanSet fieldName) in
      let nested :=
        match t, field with
        | TStruct false sfs, _ =>
            validateStruct ro' sfs (struct_vals field)
              (buildFieldPath prefix fieldName)
        | TPtr (TStruct _ sfs), VPtr (Some x) =>
            validateStruct ro' sfs (struct_vals x)
              (buildFieldPath prefix fieldName)
        | _, _ => Returned None
        end in
      let after_check :=
        match nested with
        | Returned None => validateStruct ro rest vs' prefix
        | stop => stop
        end in
      if String.eqb tag "true" then
        match isZeroValue ro' t field with
        | Panicked msg => Panicked msg
        | Returned true =>
            Returned
              (Some (Errorf ("required field is empty: "
                             ++ buildFieldPath prefix fieldName)))
        | Returned false => after_check
        end
      else after_check
  | _, _ => Returned None
  end.

(** [Validate]: a pointer is followed, and anything but a struct makes the
    reflection calls panic. *)
Definition Validate (cfg : target) : outcome (option error) :=
  match cfg with
  | StructPointer fs vs | StructValue fs vs => validateStruct false fs vs ""
  | NilInterface | NotStruct =>
      Panicked "reflect: call of a struct method on a Value that is not a struct"
  end.

(** ** The record types of the repository's tests *)

Module TestTypes.

Definition ServerConfig : fields :=
  FCons "Host" "true" TString
    (FCons "Port" "true" (TInt Int) (FCons "TLS" "" TBool FNil)).

Definition Credentials : fields :=
  FCons "Username" "" TString (FCons "Password" "" TString FNil).

Definition DatabaseConfig : fields :=
  FCons "URL" "true" TString
    (FCons "MaxConns" "" (TInt Int)
       (FCons "Timeout" "" TDuration
          (FCons "Credentials" "" (TPtr (TStruct false Credentials)) FNil))).

Definition RedisConfig : fields :=
  FCons "Host" "" TString
    (FCons "Port" "" (TInt Int)
       (FCons "Password" "" TString (FCons "DB" "" (TInt Int) FNil))).

Definition FeatureFlags : fields :=
  FCons "EnableMetrics" "" TBool
    (FCons "EnableTracing" "" TBool
       (FCons "AllowedIPs" "" (TSlice TString) FNil)).

Definition TestConfig : fields :=
  FCons "Server" "" (TStruct false ServerConfig)
    (FCons "Database" "" (TStruct false DatabaseConfig)
       (FCons "Redis" "" (TPtr (TStruct false RedisConfig))
          (FCons "Features" "" (TStruct false FeatureFlags)
             (FCons "Timeout" "" TDuration FNil)))).

End TestTypes.

(** ** A platform to run examples on

    Durations are an integer followed by one unit, which covers the
    literals of the repository's tests; no float or time literal is
    accepted; a YAML document is decoded by looking its text up in a table
    of already decoded records. *)

Module Sample.

Fixpoint span_digits (s : string) : string * string :=
  match s with
  | String c s' =>
      if Bytes.is_digit c
      then let '(ds, rest) := span_digits s' in (String c ds, rest)
      else (EmptyString, s)
  | EmptyString => (EmptyString, EmptyString)
  end.

Definition unit_ns (u : string) : option Z :=
  if String.eqb u "ns" then Some 1
  else if String.eqb u "us" then Some 1000
  else if String.eqb u "ms" then Some 1000000
  else if String.eqb u "s" then Some 1000000000
  else if String.eqb u "m" then Some 60000000000
  else if String.eqb u "h" then Some 3600000000000
  else None.

Definition ParseDuration1 (s : string) : option Z :=
  let '(ds, u) := span_digits s in
  match Strconv.digits1 ds, unit_ns u with
  | Some n, Some k => if n * k <? 2 ^ 63 then Some (n * k) else None
  | _, _ => None
  end.

Definition Unmarshal1 (decode : string -> option (list value))
    (data : string) (fs : fields) (vs : list value)
    : list value * option error :=
  match decode data with
  | Some doc =>
      if have_types fs doc then (doc, None)
      else (vs, Some (Errorf "yaml: unmarshal errors"))
  | None => (vs, Some (Errorf "yaml: did not find expected node content"))
  end.

Lemma Unmarshal1_typed decode data fs vs :
  have_types fs vs = true ->
  have_types fs (fst (Unmarshal1 decode data fs vs)) = true.
Proof.
  intros Hvs. unfold Unmarshal1.
  destruct (decode data) as [doc|]; [|exact Hvs].
  destruct (have_types fs doc) eqn:Hdoc; [exact Hdoc|exact Hvs].
Qed.

Definition platform (decode : string -> option (list value)) : Platform :=
  {| ParseFloat := fun _ => None;
     toFloat32 := fun bits => bits;
     ParseDuration := ParseDuration1;
     time_Parse := fun _ _ => None;
     yaml_Unmarshal := Unmarshal1 decode;
     yaml_Unmarshal_typed := Unmarshal1_typed decode |}.

(** No file, and the variables of the given list. *)
Definition env_only (vars : list (string * string)) : OS :=
  {| environ := list_to_map vars; ReadFile := fun _ => NotExist |}.

End Sample.

(** ** Positions in a record

    The notions the statements below are phrased with: how the walk sorts
    a field by its type, the step it takes at one field, the fields whose
    variables [hasAnyEnvVar] consults, and the field and the value found
    at a path of field indices. *)

(** The three ways [processStruct] and [hasAnyEnvVar] treat a field: a
    nested record (a struct other than [time.Time]), a nullable nested
    record (a pointer to any struct) and a leaf (everything else). *)
Inductive fieldClass : Type :=
  | Nested (sfs : fields)
  | Nullable (sfs : fields)
  | Leaf.

Definition classify (t : ty) : fieldClass :=
  match t with
  | TStruct false sfs => Nested sfs
  | TPtr (TStruct _ sfs) => Nullable sfs
  | _ => Leaf
  end.

(** The fields [hasAnyEnvVar] looks a variable up for, exported or not,
    each with the prefix it is reached under. *)
Fixpoint leafFields (fs : fields) (prefix : string) : list (string * string) :=
  match fs with
  | FNil => []
  | FCons fieldName _ t rest =>
      match t with
      | TStruct false sfs | TPtr (TStruct _ sfs) =>
          leafFields sfs (buildPrefix prefix fieldName)
      | _ => [(fieldName, prefix)]
      end ++ leafFields rest prefix
  end.

(** The field at a path of indices, with the prefix it is reached under.
    The path leads through settable fields that are nested or nullable
    records, and ends at a settable field. *)
Fixpoint fieldAt (fs : fields) (prefix : string) (path : list nat)
    : option (string * string * ty) :=
  match path with
  | [] => None
  | i :: path' =>
      match Field fs i with
      | Some (fieldName, _, t) =>
          if CanSet fieldName then
            match path' with
            | [] => Some (fieldName, prefix, t)
            | _ :: _ =>
                match classify t with
                | Nested sfs | Nullable sfs =>
                    fieldAt sfs (buildPrefix prefix fieldName) path'
                | Leaf => None
                end
            end
          else None
      | None => None
      end
  end.

(** The value at a path, [None] when a nullable record on the way to it
    is nil. *)
Fixpoint valueAt (fs : fields) (vs : list value) (path : list nat)
    : option value :=
  match path with
  | [] => None
  | i :: path' =>
      match Field fs i, vs !! i with
      | Some (_, _, t), Some v =>
          match path' with
          | [] => Some v
          | _ :: _ =>
              match classify t, v with
              | Nested sfs, _ => valueAt sfs (struct_vals v) path'
              | Nullable sfs, VPtr (Some x) => valueAt sfs (struct_vals x) path'
              | _, _ => None
              end
          end
      | _, _ => None
      end
  end.

Section Walk.

Context {P : Platform}.
Variable os : OS.
Variable c : Config.

(** What [processStruct] does at one settable field. *)
Definition processField (fieldName : string) (t : ty) (field : value)
    (prefix : string) : value * option error :=
  match classify t with
  | Nested sfs =>
      let '(svs, err) :=
        processStruct os c sfs (struct_vals field) (buildPrefix prefix fieldName) in
      (VStruct svs, err)
  | Nullable sfs =>
      if hasAnyEnvVar os c sfs (buildPrefix prefix fieldName) then
        let pointee :=
          match field with
          | VPtr (Some x) => struct_vals x
          | _ => zeros sfs
          end in
        let '(svs, err) :=
          processStruct os c sfs pointee (buildPrefix prefix fieldName) in
        (VPtr (Some (VStruct svs)), err)
      else (field, None)
  | Leaf =>
      let '(field', err) :=
        setFieldFromEnv os t field (envNameOf c fieldName prefix) in
      (field', Wrapf ("failed to set field " ++ fieldName) <$> err)
  end.

(** What [hasAnyEnvVar] tests at one field. *)
Definition fieldHasEnv (fieldName : string) (t : ty) (prefix : string) : bool :=
  match classify t with
  | Nested sfs | Nullable sfs =>
      hasAnyEnvVar os c sfs (buildPrefix prefix fieldName)
  | Leaf => negb (Bytes.is_empty (Getenv os (envNameOf c fieldName prefix)))
  end.

(** The names of the variables [hasAnyEnvVar] consults. *)
Definition leafEnvNames (fs : fields) (prefix : string) : list string :=
  map (fun '(fieldName, pre) => envNameOf c fieldName pre) (leafFields fs prefix).

(** The first step of [Load] on a struct: the YAML file, when one is
    configured. *)
Definition yamlStep (fs : fields) (vs : list value) : list value * option error :=
  if Bytes.is_empty (yamlFile c) then (vs, None) else loadFromYAML os c fs vs.

End Walk.

(** ** Further notions used in the statements *)

(** *** Strings *)

Fixpoint count_commas (s : string) : nat :=
  match s with
  | EmptyString => O
  | String c s' => (if Ascii.eqb c "," then 1 else 0) + count_commas s'
  end.

Fixpoint has_comma (s : string) : bool :=
  match s with
  | EmptyString => false
  | String c s' => Ascii.eqb c "," || has_comma s'
  end.

(** A part of the string that the element type accepts. *)
Definition part_ok (set : value -> string -> value * option error)
    (elemZero : value) (part : string) : Prop :=
  snd (set elemZero (Strings.TrimSpace part)) = None.

(** The last two bytes of a string. *)
Fixpoint last2 (s : string) : string :=
  match s with
  | String _ (String _ EmptyString) => s
  | String _ s' => last2 s'
  | EmptyString => EmptyString
  end.

(** *** The environment *)

(** [os.Setenv] and [os.Unsetenv] *)
Definition Setenv (os : OS) (key value : string) : OS :=
  {| environ := <[key := value]> (environ os); ReadFile := ReadFile os |}.

Definition Unsetenv (os : OS) (key : string) : OS :=
  {| environ := delete key (environ os); ReadFile := ReadFile os |}.

(** *** Validation *)

(** The field [validateStruct] visits at a path of indices, exported or
    not, through nested records and nullable records that are not nil:
    its dotted path, its [required] tag, its type and its value. *)
Fixpoint visitedAt (fs : fields) (vs : list value) (prefix : string)
    (path : list nat) : option (string * string * ty * value) :=
  match path with
  | [] => None
  | i :: path' =>
      match Field fs i, vs !! i with
      | Some (fieldName, tag, t), Some v =>
          match path' with
          | [] => Some (buildFieldPath prefix fieldName, tag, t, v)
          | _ :: _ =>
              match classify t, v with
              | Nested sfs, _ =>
                  visitedAt sfs (struct_vals v)
                    (buildFieldPath prefix fieldName) path'
              | Nullable sfs, VPtr (Some x) =>
                  visitedAt sfs (struct_vals x)
                    (buildFieldPath prefix fieldName) path'
              | _, _ => None
              end
          end
      | _, _ => None
      end
  end.

(** Declaration order: a field comes before the fields below it and
    before every field that follows it. *)
Fixpoint path_before (p q : list nat) : bool :=
  match p, q with
  | [], _ :: _ => true
  | i :: p', j :: q' => (i <? j)%nat || ((i =? j)%nat && path_before p' q')
  | _, [] => false
  end.

(** What [isZeroValue] answers for a value, when it answers. *)
Definition holds_zero (t : ty) (v : value) : bool :=
  match isZeroValue false t v with
  | Returned b => b
  | Panicked _ => false
  end.

(** A required field at a path that holds the zero value. *)
Definition missing_at (fs : fields) (vs : list value) (prefix : string)
    (path : list nat) (dotted : string) : Prop :=
  exists t v,
    visitedAt fs vs prefix path = Some (dotted, "true", t, v)
    /\ holds_zero t v = true.

(** The records below a field that [validateStruct] goes into. *)
Definition validate_below (ro : bool) (fieldName : string) (t : ty)
    (field : value) (prefix : string) : outcome (option error) :=
  match classify t, field with
  | Nested sfs, _ =>
      validateStruct ro sfs (struct_vals field) (buildFieldPath prefix fieldName)
  | Nullable sfs, VPtr (Some x) =>
      validateStruct ro sfs (struct_vals x) (buildFieldPath prefix fieldName)
  | _, _ => Returned None
  end.

(** What the claim asks of a returned result [r]: no error when no
    required field is missing, and otherwise the error that names the
    first missing field in declaration order. *)
Definition validate_spec (fs : fields) (vs : list value) (prefix : string)
    (r : option error) : Prop :=
  match r with
  | None => forall path dotted, ~ missing_at fs vs prefix path dotted
  | Some e =>
      exists path dotted,
        missing_at fs vs prefix path dotted
        /\ e = Errorf ("required field is empty: " ++ dotted)
        /\ forall path' dotted',
             path_before path' path = true ->
             ~ missing_at fs vs prefix path' dotted'
  end.

(** The record types on which [validateStruct] cannot panic: every
    required field of struct kind is reached through exported fields only
    and has a comparable type. *)
Fixpoint required_safe (ro : bool) (fs : fields) : bool :=
  match fs with
  | FNil => true
  | FCons fieldName tag t rest =>
      let ro' := ro || negb (CanSet fieldName) in
      (negb (String.eqb tag "true")
       || match t with
          | TStruct _ _ => negb ro' && comparable t
          | _ => true
          end)
      && match t with
         | TStruct false sfs | TPtr (TStruct _ sfs) => required_safe ro' sfs
         | _ => true
         end
      && required_safe ro rest
  end.

(** *** Names *)


Fixpoint no_lower (s : string) : bool :=
  match s with
  | EmptyString => true
  | String c s' => negb (Bytes.is_lower c) && no_lower s'
  end.


(** *** Failures of the walk *)

(** What a failed walk reports: a settable leaf, its variable set to a
    string that the coercion of its type refuses. *)
Definition failing_leaf {P : Platform} (os : OS) (c : Config) (fs : fields)
    (vs vs' : list value) (prefix : string) (e : error) : Prop :=
  exists path fieldName pre t cause,
    fieldAt fs prefix path = Some (fieldName, pre, t)
    /\ classify t = Leaf
    /\ Getenv os (envNameOf c fieldName pre) <> ""
    /\ snd (setFieldValue t (default (zero t) (valueAt fs vs path))
              (Getenv os (envNameOf c fieldName pre))) = Some cause
    /\ e = Wrapf ("failed to set field " ++ fieldName) cause
    /\ valueAt fs vs' path
       = Some (fst (setFieldValue t (default (zero t) (valueAt fs vs path))
                      (Getenv os (envNameOf c fieldName pre)))).

(** A leaf the walk passes without an error: its variable is not set, or
    the coercion of its type accepts the string. *)
Definition leaf_accepted {P : Platform} (os : OS) (c : Config) (fs : fields)
    (vs : list value) (prefix : string) (path : list nat) : Prop :=
  forall fieldName pre t,
    fieldAt fs prefix path = Some (fieldName, pre, t) ->
    classify t = Leaf ->
    Getenv os (envNameOf c fieldName pre) = ""
    \/ snd (setFieldValue t (default (zero t) (valueAt fs vs path))
              (Getenv os (envNameOf c fieldName pre))) = None.

(** The error [e] is that of a leaf whose coercion fails, every leaf
    before it in declaration order being passed without an error. *)
Definition first_failing_leaf {P : Platform} (os : OS) (c : Config)
    (fs : fields) (vs : list value) (prefix : string) (e : error) : Prop :=
  exists path fieldName pre t cause,
    fieldAt fs prefix path = Some (fieldName, pre, t)
    /\ classify t = Leaf
    /\ snd (setFieldValue t (default (zero t) (valueAt fs vs path))
              (Getenv os (envNameOf c fieldName pre))) = Some cause
    /\ e = Wrapf ("failed to set field " ++ fieldName) cause
    /\ forall path',
         path_before path' path = true -> leaf_accepted os c fs vs prefix path'.

(** *** Types *)

(** Every struct type marked as [time.Time] is [time.Time]. *)
Fixpoint times_ok (t : ty) : Prop :=
  match t with
  | TSlice e | TArray _ e | TPtr e => times_ok e
  | TStruct true fs => fs = Time_fields
  | TStruct false fs => fields_times_ok fs
  | _ => True
  end
with fields_times_ok (fs : fields) : Prop :=
  match fs with
  | FNil => True
  | FCons _ _ t rest => times_ok t /\ fields_times_ok rest
  end.

(** The parsers of the platform answer within their result types. *)
Definition platform_typed (P : Platform) : Prop :=
  (forall s d, ParseDuration s = Some d -> int_in_range 64 d = true)
  /\ (forall s bits, ParseFloat s = Some bits -> uint_in_range 64 bits = true)
  /\ (forall bits,
         uint_in_range 64 bits = true -> uint_in_range 64 (toFloat32 bits) = true)
  /\ (forall layout s v, time_Parse layout s = Some v -> has_type TTime v = true).

(** ** The scenarios of the repository's tests *)

Module Scenarios.

Import TestTypes.

(** The documents of [TestEnvOverridesYAML] and [TestLoadFromYAML] (written
    in flow style), each
    with the record [yaml.Unmarshal] decodes it to. *)
Definition override_yaml : string :=
  "server: {host: yaml-host, port: 3000}, database: {url: postgres://yaml-db/test}".

Definition override_doc : list value :=
  [VStruct [VString "yaml-host"; VInt 3000; VBool false];
   VStruct [VString "postgres://yaml-db/test"; VInt 0; VInt 0; VPtr None];
   VPtr None;
   VStruct [VBool false; VBool false; VSlice None];
   VInt 0].

Definition full_yaml : string :=
  "server: {host: yaml-host, port: 3000, tls: false}, database: {url: postgres://yaml-db/test, max_conns: 5, timeout: 15s, credentials: {username: yaml-user, password: yaml-pass}}, features: {enable_metrics: false, enable_tracing: true, allowed_ips: [192.168.1.0, 10.0.0.0]}, timeout: 2m".

Definition full_doc : list value :=
  [VStruct [VString "yaml-host"; VInt 3000; VBool false];
   VStruct [VString "postgres://yaml-db/test"; VInt 5; VInt 15000000000;
            VPtr (Some (VStruct [VString "yaml-user"; VString "yaml-pass"]))];
   VPtr None;
   VStruct [VBool false; VBool true;
            VSlice (Some [VString "192.168.1.0"; VString "10.0.0.0"])];
   VInt 120000000000].

Definition decode (data : string) : option (list value) :=
  if String.eqb data override_yaml then Some override_doc
  else if String.eqb data full_yaml then Some full_doc
  else None.

Definition platform : Platform := Sample.platform decode.

(** A file system with the one file [config.yaml]. *)
Definition with_file (data : string) (vars : list (string * string)) : OS :=
  {| environ := list_to_map vars;
     ReadFile := fun file =>
       if String.eqb file "config.yaml" then Contents data else NotExist |}.

Definition from_file : Config := WithYAMLFile "config.yaml" New.

(** [TestEnvOverridesYAML] *)
Definition override_os : OS :=
  with_file override_yaml [("SERVER_HOST", "env-host"); ("SERVER_PORT", "8080")].

Definition override_result : list value :=
  [VStruct [VString "env-host"; VInt 8080; VBool false];
   VStruct [VString "postgres://yaml-db/test"; VInt 0; VInt 0; VPtr None];
   VPtr None;
   VStruct [VBool false; VBool false; VSlice None];
   VInt 0].

(** The same file, with [SERVER_HOST] set to the empty string. *)
Definition empty_host_os : OS :=
  with_file override_yaml [("SERVER_HOST", ""); ("SERVER_PORT", "8080")].

Definition empty_host_result : list value :=
  [VStruct [VString "yaml-host"; VInt 8080; VBool false];
   VStruct [VString "postgres://yaml-db/test"; VInt 0; VInt 0; VPtr None];
   VPtr None;
   VStruct [VBool false; VBool false; VSlice None];
   VInt 0].

(** [TestLoadFromYAML]: no variable is set. *)
Definition full_os : OS := with_file full_yaml [].

(** [TestPointerFields] *)
Definition redis_os : OS :=
  Sample.env_only
    [("REDIS_HOST", "redis-server"); ("REDIS_PORT", "6379"); ("REDIS_DB", "2")].

Definition redis_result : list value :=
  [VStruct [VString ""; VInt 0; VBool false];
   VStruct [VString ""; VInt 0; VInt 0; VPtr None];
   VPtr (Some (VStruct [VString "redis-server"; VInt 6379; VString ""; VInt 2]));
   VStruct [VBool false; VBool false; VSlice None];
   VInt 0].

(** [TestCustomEnvMapping], with any prefix. *)
Definition custom_mapping : gmap string string :=
  list_to_map [("Host", "CUSTOM_HOST"); ("Port", "CUSTOM_PORT")].

Definition custom_config (prefix : string) : Config :=
  WithEnvPrefix prefix (WithEnvMapping custom_mapping New).

Definition custom_os : OS :=
  Sample.env_only [("CUSTOM_HOST", "custom-host"); ("CUSTOM_PORT", "9090")].

Definition custom_result : list value :=
  [VStruct [VString "custom-host"; VInt 9090; VBool false];
   VStruct [VString ""; VInt 0; VInt 0; VPtr None];
   VPtr (Some (VStruct [VString "custom-host"; VInt 9090; VString ""; VInt 0]));
   VStruct [VBool false; VBool false; VSlice None];
   VInt 0].

(** A record whose field [Features], a nested record that holds a slice,
    is tagged [required]. *)
Definition RequiredFeatures : fields :=
  FCons "Features" "true" (TStruct false TestTypes.FeatureFlags) FNil.

End Scenarios.

(** * Properties *)

(** ** Name derivation *)

(** [TestToSnakeCase] *)
Example toSnakeCase_tests :
  map toSnakeCase
    ["CamelCase"; "XMLHttpRequest"; "ID"; "UserID"; "HTTPServer"; "simple";
     ""; "TLS"; "URL"; "AllowedIPs"]
  = ["camel_case"; "xml_http_request"; "id"; "user_id"; "http_server";
     "simple"; ""; "tls"; "url"; "allowed_i_ps"].
Proof. vm_compute. reflexivity. Qed.

(** C2: the derivation of a variable name from a field name is a function
    of the name alone (for a binder without prefix it is the upper-cased
    snake form), and on the listed names it yields exactly the listed
    variables, [AllowedIPs] giving [ALLOWED_I_PS]. *)
Theorem C2_env_name_derivation :
  (forall (file : string) (mapping : gmap string string) (fieldName : string),
      getEnvName (mkConfig "" file mapping) fieldName ""
      = Bytes.ToUpper (toSnakeCase fieldName))
  /\ map (fun fieldName => getEnvName New fieldName "")
       ["CamelCase"; "XMLHttpRequest"; "ID"; "UserID"; "HTTPServer"; "";
        "TLS"; "URL"; "AllowedIPs"]
     = ["CAMEL_CASE"; "XML_HTTP_REQUEST"; "ID"; "USER_ID"; "HTTP_SERVER"; "";
        "TLS"; "URL"; "ALLOWED_I_PS"].
Proof.
  split.
  - intros file mapping fieldName. reflexivity.
  - vm_compute. reflexivity.
Qed.

(** ** Coercion *)

Section Coercion.

Context {P : Platform}.

Lemma wrap_int_range (bits n : Z) :
  0 < bits -> int_in_range bits (wrap_int bits n) = true.
Proof.
  intros Hbits. unfold int_in_range, wrap_int.
  assert (Hpow : 2 ^ bits = 2 * 2 ^ (bits - 1)).
  { rewrite <- Z.pow_succ_r by lia. f_equal. lia. }
  assert (Hpos : 0 < 2 ^ (bits - 1)) by (apply Z.pow_pos_nonneg; lia).
  pose proof (Z.mod_pos_bound (n + 2 ^ (bits - 1)) (2 ^ bits)) as Hmod.
  apply andb_true_intro. split; [apply Z.leb_le | apply Z.ltb_lt]; lia.
Qed.

Lemma wrap_int_congruent (bits n : Z) :
  0 < bits -> wrap_int bits n mod 2 ^ bits = n mod 2 ^ bits.
Proof.
  intros Hbits. unfold wrap_int.
  assert (Hpos : 0 < 2 ^ bits) by (apply Z.pow_pos_nonneg; lia).
  rewrite Zminus_mod, Zmod_mod, <- Zminus_mod.
  f_equal. lia.
Qed.

Lemma int_bits_pos (k : intKind) : 0 < int_bits k.
Proof. destruct k; reflexivity. Qed.

(** C10: an integer field narrower than 64 bits accepts every value that
    parses as a 64-bit integer; what it stores lies in the range of the
    field and differs from the parsed number by a multiple of [2 ^ w].
    An unsigned field stores the parsed number modulo [2 ^ w].  The
    string [300] sets an [int8] field to 44 and a [uint8] field to 44. *)
Theorem C10_narrow_integers_wrap (field : value) (raw : string) :
  (forall (k : intKind) (n : Z),
      Strconv.ParseInt raw = Some n ->
      exists m,
        setFieldValue (TInt k) field raw = (VInt m, None)
        /\ int_in_range (int_bits k) m = true
        /\ m mod 2 ^ int_bits k = n mod 2 ^ int_bits k)
  /\ (forall (k : uintKind) (n : Z),
         Strconv.ParseUint raw = Some n ->
         setFieldValue (TUint k) field raw
         = (VUint (n mod 2 ^ uint_bits k), None))
  /\ setFieldValue (TInt Int8) field "300" = (VInt 44, None)
  /\ setFieldValue (TUint Uint8) field "300" = (VUint 44, None).
Proof.
  repeat split.
  - intros k n Hparse. exists (wrap_int (int_bits k) n).
    simpl. rewrite Hparse.
    pose proof (int_bits_pos k).
    auto using wrap_int_range, wrap_int_congruent.
  - intros k n Hparse. simpl. rewrite Hparse. reflexivity.
Qed.

(** *** Slices *)

Lemma Split_comma_length (s : string) :
  length (Strings.Split_comma s) = S (count_commas s).
Proof.
  induction s as [|ch s IH]; [reflexivity|].
  simpl. destruct (Ascii.eqb ch ","); simpl.
  - rewrite IH. reflexivity.
  - destruct (Strings.Split_comma s); simpl in *; congruence.
Qed.

Lemma Split_comma_concat (s : string) :
  String.concat "," (Strings.Split_comma s) = s.
Proof.
  induction s as [|ch s IH]; [reflexivity|].
  pose proof (Split_comma_length s) as Hlen.
  simpl. destruct (Ascii.eqb ch ",") eqn:Hch.
  - apply Ascii.eqb_eq in Hch. subst ch.
    destruct (Strings.Split_comma s) as [|p ps]; [discriminate|].
    change (String.concat "," (EmptyString :: p :: ps))
      with (String "," (String.concat "," (p :: ps))).
    rewrite IH. reflexivity.
  - destruct (Strings.Split_comma s) as [|p ps]; [discriminate|].
    rewrite <- IH. destruct ps; reflexivity.
Qed.

Lemma Split_comma_parts (s : string) :
  Forall (fun part => has_comma part = false) (Strings.Split_comma s).
Proof.
  induction s as [|ch s IH]; simpl.
  - repeat constructor.
  - destruct (Ascii.eqb ch ",") eqn:Hch.
    + constructor; [reflexivity|exact IH].
    + destruct (Strings.Split_comma s) as [|p ps].
      * repeat constructor. simpl. rewrite Hch. reflexivity.
      * inversion IH; subst. constructor; [|assumption].
        simpl. rewrite Hch. assumption.
Qed.

Section Elems.

Variable set : value -> string -> value * option error.
Variable elemZero : value.

Lemma setSliceElems_ok (parts : list string) (i : nat) :
  Forall (part_ok set elemZero) parts ->
  setSliceElems set elemZero parts i
  = (map (fun part => fst (set elemZero (Strings.TrimSpace part))) parts, None).
Proof.
  intros Hall. revert i.
  induction Hall as [|part parts Hpart _ IH]; intros i; [reflexivity|].
  simpl. unfold part_ok in Hpart.
  destruct (set elemZero (Strings.TrimSpace part)) as [elem err].
  simpl in *. subst err. rewrite IH. reflexivity.
Qed.

Lemma setSliceElems_err (parts : list string) (i j : nat) (part : string)
    (e : error) :
  parts !! j = Some part ->
  snd (set elemZero (Strings.TrimSpace part)) = Some e ->
  Forall (part_ok set elemZero) (take j parts) ->
  snd (setSliceElems set elemZero parts i)
  = Some (Wrapf ("invalid slice element at index " ++ Strconv.Itoa (i + j)) e).
Proof.
  revert i j. induction parts as [|p parts IH]; intros i j Hj He Hpre.
  - discriminate.
  - destruct j as [|j]; simpl in *.
    + injection Hj as ->.
      destruct (set elemZero (Strings.TrimSpace part)) as [elem err].
      simpl in He. subst err. rewrite Nat.add_0_r. reflexivity.
    + inversion Hpre as [|? ? Hp Hrest]; subst. unfold part_ok in Hp.
      destruct (set elemZero (Strings.TrimSpace p)) as [elem err].
      simpl in Hp. subst err.
      specialize (IH (S i) j Hj He Hrest).
      destruct (setSliceElems set elemZero parts (S i)) as [elems err'].
      simpl in *. rewrite IH.
      replace (i + S j)%nat with (S (i + j))%nat by lia. reflexivity.
Qed.

End Elems.

(** C7: a slice field is set from the parts of the string between commas
    (there is one more part than there are commas, and no part holds a
    comma), each trimmed and coerced to the element type from a zero
    element.  When every part is accepted the field receives a new slice
    with one element per part; when the part at index [i] is the first to
    be refused the field is left alone and the error wraps that part's
    error under a message that names [i]. *)
Theorem C7_slice_coercion (elem : ty) (field : value) (raw : string) :
  let parts := Strings.Split_comma raw in
  let coerce part := setFieldValue elem (zero elem) (Strings.TrimSpace part) in
  (length parts = S (count_commas raw)
   /\ String.concat "," parts = raw
   /\ Forall (fun part => has_comma part = false) parts)
  /\ (Forall (fun part => snd (coerce part) = None) parts ->
      exists slice,
        setFieldValue (TSlice elem) field raw = (VSlice (Some slice), None)
        /\ slice = map (fun part => fst (coerce part)) parts
        /\ length slice = length parts)
  /\ (forall (i : nat) (part : string) (e : error),
         parts !! i = Some part ->
         snd (coerce part) = Some e ->
         Forall (fun part => snd (coerce part) = None) (take i parts) ->
         setFieldValue (TSlice elem) field raw
         = (field,
            Some (Wrapf ("invalid slice element at index " ++ Strconv.Itoa i) e))).
Proof.
  intros parts coerce. split; [|split].
  - split; [apply Split_comma_length|].
    split; [apply Split_comma_concat|apply Split_comma_parts].
  - intros Hall. eexists. split; [|split; [reflexivity|]].
    + simpl. unfold setSliceValue_with. fold parts.
      rewrite (setSliceElems_ok _ _ parts 0 Hall). reflexivity.
    + apply length_map.
  - intros i part e Hi He Hpre.
    simpl. unfold setSliceValue_with. fold parts.
    pose proof (setSliceElems_err _ _ parts 0 i part e Hi He Hpre) as Herr.
    destruct (setSliceElems (setFieldValue elem) (zero elem) parts 0)
      as [slice err].
    simpl in Herr. subst err. reflexivity.
Qed.

End Coercion.

Lemma C10_narrow_integers_wrap_witness :
  Strconv.ParseInt "70000" = Some 70000
  /\ Strconv.ParseUint "70000" = Some 70000
  /\ (exists m,
        setFieldValue (P := Sample.platform (fun _ => None))
          (TInt Int16) (VInt 0) "70000" = (VInt m, None)
        /\ int_in_range 16 m = true
        /\ m mod 2 ^ 16 = 70000 mod 2 ^ 16)
  /\ setFieldValue (P := Sample.platform (fun _ => None))
       (TUint Uint16) (VUint 0) "70000" = (VUint 4464, None).
Proof.
  pose proof (C10_narrow_integers_wrap (P := Sample.platform (fun _ => None)))
    as Hwrap.
  split; [reflexivity|]. split; [reflexivity|]. split.
  - apply (proj1 (Hwrap (VInt 0) "70000") Int16 70000). reflexivity.
  - apply (proj1 (proj2 (Hwrap (VUint 0) "70000")) Uint16 70000). reflexivity.
Defined.

Lemma C7_slice_coercion_witness :
  setFieldValue (P := Sample.platform (fun _ => None))
    (TSlice (TInt Int8)) (VSlice None) "1, 2 ,300"
  = (VSlice (Some [VInt 1; VInt 2; VInt 44]), None)
  /\ setFieldValue (P := Sample.platform (fun _ => None))
       (TSlice (TInt Int8)) (VSlice None) "1, 2,x"
     = (VSlice None,
        Some (Wrapf "invalid slice element at index 2"
                (Errorf "invalid int value: x"))).
Proof.
  split.
  - destruct (proj1 (proj2 (C7_slice_coercion
                (P := Sample.platform (fun _ => None))
                (TInt Int8) (VSlice None) "1, 2 ,300")))
      as [slice [Hset [Hslice _]]].
    + repeat constructor.
    + rewrite Hset, Hslice. reflexivity.
  - apply (proj2 (proj2 (C7_slice_coercion
                (P := Sample.platform (fun _ => None))
                (TInt Int8) (VSlice None) "1, 2,x"))
             2%nat "x" (Errorf "invalid int value: x")).
    + reflexivity.
    + reflexivity.
    + repeat constructor.
Defined.

(** ** Load and MustLoad *)

Section Loading.

Context {P : Platform}.
Variable os : OS.
Variable c : Config.

Lemma is_empty_false (s : string) : s <> "" -> Bytes.is_empty s = false.
Proof. destruct s; [congruence|reflexivity]. Qed.

Lemma is_empty_true (s : string) : Bytes.is_empty s = true <-> s = "".
Proof. destruct s; simpl; split; congruence. Qed.

(** C6: with a YAML path configured, a file that does not exist is passed
    over: [Load] goes on to the environment step on the untouched target
    and reports only what that step reports.  A file that is read but does
    not decode makes [Load] fail, before the environment step, with an
    error that wraps the decoder's error (two [Unwrap] steps reach it). *)
Theorem C6_yaml_step (fs : fields) (vs : list value) :
  yamlFile c <> "" ->
  (ReadFile os (yamlFile c) = NotExist ->
   Load os c (StructPointer fs vs)
   = (StructPointer fs (fst (loadFromEnv os c fs vs)),
      Wrapf "failed to load from env" <$> snd (loadFromEnv os c fs vs)))
  /\ (forall (data : string) (cause : error),
         ReadFile os (yamlFile c) = Contents data ->
         snd (yaml_Unmarshal data fs vs) = Some cause ->
         exists e,
           Load os c (StructPointer fs vs)
           = (StructPointer fs (fst (yaml_Unmarshal data fs vs)), Some e)
           /\ e = Wrapf "failed to load YAML"
                    (Wrapf "failed to unmarshal YAML" cause)
           /\ Unwrap e ≫= Unwrap = Some cause).
Proof.
  intros Hpath. apply is_empty_false in Hpath. split.
  - intros Hread. unfold Load, loadFromYAML. rewrite Hpath, Hread.
    destruct (loadFromEnv os c fs vs) as [vs2 [e|]]; reflexivity.
  - intros data cause Hread Hcause. eexists. split; [|split; reflexivity].
    unfold Load, loadFromYAML. rewrite Hpath, Hread.
    destruct (yaml_Unmarshal data fs vs) as [vs1 err]. simpl in Hcause.
    subst err. reflexivity.
Qed.

(** C8: [MustLoad] returns exactly when [Load] returns no error, with the
    target as [Load] left it; when [Load] fails it panics with a message
    that ends in the error's message, and so never returns normally. *)
Theorem C8_MustLoad (cfg cfg' : target) (err : option error) :
  Load os c cfg = (cfg', err) ->
  match err with
  | None => MustLoad os c cfg = (cfg', Returned tt)
  | Some e =>
      MustLoad os c cfg
      = (cfg', Panicked ("failed to load configuration: " ++ Error e))
      /\ snd (MustLoad os c cfg) <> Returned tt
  end.
Proof.
  intros Hload. unfold MustLoad. rewrite Hload.
  destruct err as [e|]; [split|]; [reflexivity| |reflexivity].
  simpl. discriminate.
Qed.

End Loading.

Lemma C6_yaml_step_witness :
  let P := Sample.platform (fun _ => None) in
  let c := WithYAMLFile "config.yaml" New in
  Load (P := P) (Sample.env_only [("PORT", "8080")]) c
    (StructPointer TestTypes.ServerConfig (zeros TestTypes.ServerConfig))
  = (StructPointer TestTypes.ServerConfig [VString ""; VInt 8080; VBool false],
     None)
  /\ exists e,
       Load (P := P)
         {| environ := ∅; ReadFile := fun _ => Contents "server: [" |} c
         (StructPointer TestTypes.ServerConfig (zeros TestTypes.ServerConfig))
       = (StructPointer TestTypes.ServerConfig (zeros TestTypes.ServerConfig),
          Some e)
       /\ e = Wrapf "failed to load YAML"
                (Wrapf "failed to unmarshal YAML"
                   (Errorf "yaml: did not find expected node content"))
       /\ Unwrap e ≫= Unwrap
          = Some (Errorf "yaml: did not find expected node content").
Proof.
  intros P c. split.
  - rewrite (proj1 (C6_yaml_step (P := P)
               (Sample.env_only [("PORT", "8080")]) c
               TestTypes.ServerConfig (zeros TestTypes.ServerConfig)
               ltac:(discriminate)) eq_refl).
    vm_compute. reflexivity.
  - apply (proj2 (C6_yaml_step (P := P)
               {| environ := ∅; ReadFile := fun _ => Contents "server: [" |} c
               TestTypes.ServerConfig (zeros TestTypes.ServerConfig)
               ltac:(discriminate)) "server: ["
             (Errorf "yaml: did not find expected node content"));
      reflexivity.
Defined.

Lemma C8_MustLoad_witness :
  MustLoad (P := Sample.platform (fun _ => None))
    (Sample.env_only []) New NotStruct
  = (NotStruct,
     Panicked "failed to load configuration: config must be a pointer to struct")
  /\ MustLoad (P := Sample.platform (fun _ => None))
       (Sample.env_only [("HOST", "localhost")]) New
       (StructPointer TestTypes.ServerConfig (zeros TestTypes.ServerConfig))
     = (StructPointer TestTypes.ServerConfig
          [VString "localhost"; VInt 0; VBool false],
        Returned tt).
Proof.
  split.
  - apply (C8_MustLoad (P := Sample.platform (fun _ => None))
             (Sample.env_only []) New NotStruct NotStruct
             (Some (Errorf "config must be a pointer to struct")) eq_refl).
  - apply (C8_MustLoad (P := Sample.platform (fun _ => None))
             (Sample.env_only [("HOST", "localhost")]) New
             (StructPointer TestTypes.ServerConfig (zeros TestTypes.ServerConfig))
             (StructPointer TestTypes.ServerConfig
                [VString "localhost"; VInt 0; VBool false])
             None).
    vm_compute. reflexivity.
Defined.

(** ** The field walk *)

Lemma classify_Nested (t : ty) (sfs : fields) :
  classify t = Nested sfs -> t = TStruct false sfs.
Proof.
  destruct t as [| | | | | | | |e|b fs|]; try discriminate.
  - destruct e; discriminate.
  - destruct b; [discriminate|]. intros [= <-]. reflexivity.
Qed.

Lemma classify_Nullable (t : ty) (sfs : fields) :
  classify t = Nullable sfs -> exists b, t = TPtr (TStruct b sfs).
Proof.
  destruct t as [| | | | | | | |e|b fs|]; try discriminate.
  - destruct e as [| | | | | | | | |b fs|]; try discriminate.
    intros [= <-]. exists b. reflexivity.
  - destruct b; discriminate.
Qed.

(** Induction over a record type that follows the walk: into the fields of
    a nested or nullable record, and on to the remaining fields. *)
Lemma fields_walk_ind (Q : fields -> Prop) :
  Q FNil ->
  (forall fieldName tag t rest,
      (forall sfs, classify t = Nested sfs -> Q sfs) ->
      (forall sfs, classify t = Nullable sfs -> Q sfs) ->
      Q rest -> Q (FCons fieldName tag t rest)) ->
  forall fs, Q fs.
Proof.
  intros Hnil Hcons.
  apply (fields_ty_ind
           (fun t => (forall b sfs, t = TStruct b sfs -> Q sfs)
                     /\ (forall b sfs, t = TPtr (TStruct b sfs) -> Q sfs)) Q);
    try (split; intros; discriminate).
  - intros e [IH _]. split; [discriminate|].
    intros b sfs [= ->]. exact (IH b sfs eq_refl).
  - intros b fs IH. split; [|discriminate].
    intros b' sfs [= _ <-]. exact IH.
  - exact Hnil.
  - intros fieldName tag t [IHs IHp] rest IHrest.
    apply Hcons; [| |exact IHrest].
    + intros sfs Hclass. apply classify_Nested in Hclass. eauto.
    + intros sfs Hclass. apply classify_Nullable in Hclass as [b ->]. eauto.
Qed.

Lemma have_types_zeros (fs : fields) : have_types fs (zeros fs) = true.
Proof.
  apply (fields_ty_ind (fun t => has_type t (zero t) = true)
           (fun fs => have_types fs (zeros fs) = true));
    try reflexivity; simpl.
  - intros k. destruct k; reflexivity.
  - intros k. destruct k; reflexivity.
  - intros n e IH. rewrite repeat_length, Nat.eqb_refl. simpl.
    induction n as [|n IHn]; simpl; [reflexivity|]. rewrite IH. exact IHn.
  - auto.
  - intros _ _ t Ht rest Hrest. rewrite Ht. exact Hrest.
Qed.

Lemma have_types_lookup (fs : fields) (vs : list value) (i : nat)
    (fieldName tag : string) (t : ty) :
  have_types fs vs = true ->
  Field fs i = Some (fieldName, tag, t) ->
  exists v, vs !! i = Some v /\ has_type t v = true.
Proof.
  revert vs i. induction fs as [|n r t' rest IH]; intros vs i Hty Hfield.
  - discriminate.
  - destruct vs as [|v vs]; [discriminate|]. simpl in Hty.
    apply andb_prop in Hty as [Hv Hrest].
    destruct i as [|i]; simpl in Hfield.
    + injection Hfield as -> -> ->. exists v. split; [reflexivity|exact Hv].
    + exact (IH vs i Hrest Hfield).
Qed.

Lemma has_type_Nested (sfs : fields) (v : value) :
  has_type (TStruct false sfs) v = true ->
  exists svs, v = VStruct svs /\ have_types sfs svs = true.
Proof. destruct v; try discriminate. simpl. eauto. Qed.

Lemma has_type_Nullable (b : bool) (sfs : fields) (v : value) :
  has_type (TPtr (TStruct b sfs)) v = true ->
  v = VPtr None
  \/ exists svs, v = VPtr (Some (VStruct svs)) /\ have_types sfs svs = true.
Proof.
  destruct v as [| | | | | | |[x|]| |]; try discriminate; [|auto].
  simpl. destruct x; try discriminate. eauto.
Qed.

Section WalkFacts.

Context {P : Platform}.
Variable os : OS.
Variable c : Config.

Lemma hasAnyEnvVar_cons (fieldName tag : string) (t : ty) (rest : fields)
    (prefix : string) :
  hasAnyEnvVar os c (FCons fieldName tag t rest) prefix
  = fieldHasEnv os c fieldName t prefix || hasAnyEnvVar os c rest prefix.
Proof.
  unfold fieldHasEnv. simpl.
  destruct t as [| | | | | | | |e|b fs|]; try reflexivity.
  - destruct e as [| | | | | | | | |b fs|]; reflexivity.
  - destruct b; reflexivity.
Qed.

Lemma processStruct_cons (fieldName tag : string) (t : ty) (rest : fields)
    (field : value) (vs : list value) (prefix : string) :
  processStruct os c (FCons fieldName tag t rest) (field :: vs) prefix
  = let '(field', err) :=
      if CanSet fieldName then processField os c fieldName t field prefix
      else (field, None) in
    match err with
    | Some e => (field' :: vs, Some e)
    | None =>
        let '(vs', err') := processStruct os c rest vs prefix in
        (field' :: vs', err')
    end.
Proof.
  unfold processField. simpl.
  destruct (CanSet fieldName); simpl; [|reflexivity].
  destruct t as [| | | | | | | |e|b fs|]; simpl;
    try (destruct (setFieldFromEnv os _ field _) as [field' [err|]];
         reflexivity).
  - destruct e as [| | | | | | | | |b fs|]; simpl;
      try (destruct (setFieldFromEnv os _ field _) as [field' [err|]];
           reflexivity).
    destruct (hasAnyEnvVar os c fs (buildPrefix prefix fieldName));
      [|reflexivity].
    destruct (processStruct os c fs _ _) as [svs [err|]]; reflexivity.
  - destruct b; simpl.
    + destruct (setFieldFromEnv os _ field _) as [field' [err|]]; reflexivity.
    + destruct (processStruct os c fs _ _) as [svs [err|]]; reflexivity.
Qed.

Lemma leafFields_cons (fieldName tag : string) (t : ty) (rest : fields)
    (prefix : string) :
  leafFields (FCons fieldName tag t rest) prefix
  = (match classify t with
    | Nested sfs | Nullable sfs => leafFields sfs (buildPrefix prefix fieldName)
    | Leaf => [(fieldName, prefix)]
    end ++ leafFields rest prefix)%list.
Proof.
  simpl. destruct t as [| | | | | | | |e|b fs|]; try reflexivity.
  - destruct e as [| | | | | | | | |b fs|]; reflexivity.
  - destruct b; reflexivity.
Qed.

(** [hasAnyEnvVar] holds exactly when one of the variables it consults
    has a non-empty value. *)
Lemma hasAnyEnvVar_leafEnvNames (fs : fields) (prefix : string) :
  hasAnyEnvVar os c fs prefix
  = existsb (fun name => negb (Bytes.is_empty (Getenv os name)))
      (leafEnvNames c fs prefix).
Proof.
  revert prefix. induction fs as [|n r t rest IHs IHp IHrest]
    using fields_walk_ind; intros prefix; [reflexivity|].
  rewrite hasAnyEnvVar_cons. unfold leafEnvNames, fieldHasEnv.
  rewrite leafFields_cons, map_app, existsb_app.
  f_equal; [|apply IHrest].
  destruct (classify t) as [sfs|sfs|] eqn:Hclass.
  - apply IHs. reflexivity.
  - apply IHp. reflexivity.
  - simpl. rewrite orb_false_r. reflexivity.
Qed.

(** Without a variable for any of its leaves a record is left as it is. *)
Lemma processStruct_no_env (fs : fields) :
  forall (vs : list value) (prefix : string),
    have_types fs vs = true ->
    hasAnyEnvVar os c fs prefix = false ->
    processStruct os c fs vs prefix = (vs, None).
Proof.
  induction fs as [|n r t rest IHs IHp IHrest] using fields_walk_ind;
    intros vs prefix Hty Henv; [reflexivity|].
  destruct vs as [|v vs]; [discriminate|].
  simpl in Hty. apply andb_prop in Hty as [Hv Hvs].
  rewrite hasAnyEnvVar_cons in Henv. apply orb_false_elim in Henv as [Hf Hr].
  rewrite processStruct_cons, (IHrest vs prefix Hvs Hr).
  destruct (CanSet n); [|reflexivity].
  unfold processField. unfold fieldHasEnv in Hf.
  destruct (classify t) as [sfs|sfs|] eqn:Hclass.
  - pose proof (classify_Nested _ _ Hclass) as ->.
    apply has_type_Nested in Hv as [svs [-> Hsvs]].
    simpl. rewrite (IHs sfs Hclass svs _ Hsvs Hf). reflexivity.
  - rewrite Hf. reflexivity.
  - unfold setFieldFromEnv. apply negb_false_iff in Hf. rewrite Hf.
    reflexivity.
Qed.

End WalkFacts.

(** The walk reads the environment and the binder only through the values
    of the variables of the leaves: two environments and binders that
    agree on them walk a record alike. *)
Lemma walk_cong {P : Platform} (os1 os2 : OS) (c1 c2 : Config) (fs : fields) :
  forall prefix,
    (forall fieldName pre,
        In (fieldName, pre) (leafFields fs prefix) ->
        Getenv os1 (envNameOf c1 fieldName pre)
        = Getenv os2 (envNameOf c2 fieldName pre)) ->
    hasAnyEnvVar os1 c1 fs prefix = hasAnyEnvVar os2 c2 fs prefix
    /\ forall vs,
         processStruct os1 c1 fs vs prefix = processStruct os2 c2 fs vs prefix.
Proof.
  induction fs as [|n r t rest IHs IHp IHrest] using fields_walk_ind;
    intros prefix Hagree; [split; reflexivity|].
  rewrite leafFields_cons in Hagree.
  destruct (IHrest prefix) as [Hany_rest Hwalk_rest].
  { intros fieldName pre Hin. apply Hagree, in_or_app. right. exact Hin. }
  assert (Hfield :
    fieldHasEnv os1 c1 n t prefix = fieldHasEnv os2 c2 n t prefix
    /\ forall v, processField os1 c1 n t v prefix
                 = processField os2 c2 n t v prefix).
  { unfold fieldHasEnv, processField.
    destruct (classify t) as [sfs|sfs|] eqn:Hclass.
    - destruct (IHs sfs eq_refl (buildPrefix prefix n)) as [Hany Hwalk].
      { intros fieldName pre Hin. apply Hagree, in_or_app. left. exact Hin. }
      split; [exact Hany|]. intros v. rewrite Hwalk. reflexivity.
    - destruct (IHp sfs eq_refl (buildPrefix prefix n)) as [Hany Hwalk].
      { intros fieldName pre Hin. apply Hagree, in_or_app. left. exact Hin. }
      split; [exact Hany|]. intros v. rewrite Hany, Hwalk. reflexivity.
    - assert (Hleaf : Getenv os1 (envNameOf c1 n prefix)
                      = Getenv os2 (envNameOf c2 n prefix)).
      { apply Hagree, in_or_app. left. left. reflexivity. }
      split; [rewrite Hleaf; reflexivity|].
      intros v. unfold setFieldFromEnv. rewrite Hleaf. reflexivity. }
  destruct Hfield as [Hany Hstep]. split.
  - rewrite !hasAnyEnvVar_cons, Hany, Hany_rest. reflexivity.
  - intros [|v vs]; [reflexivity|].
    rewrite !processStruct_cons, Hstep, Hwalk_rest. reflexivity.
Qed.

Section WalkPaths.

Context {P : Platform}.
Variable os : OS.
Variable c : Config.

(** One level of the walk: after a successful [processStruct] every
    settable field holds what its step made of it. *)
Lemma processStruct_field (fs : fields) :
  forall (vs vs' : list value) (prefix : string) (i : nat)
         (fieldName tag : string) (t : ty) (v : value),
    processStruct os c fs vs prefix = (vs', None) ->
    Field fs i = Some (fieldName, tag, t) ->
    CanSet fieldName = true ->
    vs !! i = Some v ->
    vs' !! i = Some (fst (processField os c fieldName t v prefix))
    /\ snd (processField os c fieldName t v prefix) = None.
Proof.
  induction fs as [|n r t' rest IH];
    intros vs vs' prefix i fieldName tag t v Hwalk Hfield Hset Hv;
    [discriminate|].
  destruct vs as [|v0 vs]; [discriminate|].
  rewrite processStruct_cons in Hwalk.
  destruct i as [|i]; simpl in Hfield, Hv.
  - injection Hfield as -> -> ->. injection Hv as ->. rewrite Hset in Hwalk.
    destruct (processField os c fieldName t v prefix) as [v' [e|]];
      [discriminate|].
    destruct (processStruct os c rest vs prefix) as [vs1 err1].
    injection Hwalk as <- _. split; reflexivity.
  - destruct (if CanSet n then processField os c n t' v0 prefix else (v0, None))
      as [v' [e|]]; [discriminate|].
    destruct (processStruct os c rest vs prefix) as [vs1 err1] eqn:Hrest.
    injection Hwalk as <- ->.
    exact (IH vs vs1 prefix i fieldName tag t v Hrest Hfield Hset Hv).
Qed.

(** A step at a field without variables leaves the field as it is. *)
Lemma processField_no_env (fieldName : string) (t : ty) (v : value)
    (prefix : string) :
  has_type t v = true ->
  fieldHasEnv os c fieldName t prefix = false ->
  processField os c fieldName t v prefix = (v, None).
Proof.
  intros Hv Hf. unfold processField. unfold fieldHasEnv in Hf.
  destruct (classify t) as [sfs|sfs|] eqn:Hclass.
  - pose proof (classify_Nested _ _ Hclass) as ->.
    apply has_type_Nested in Hv as [svs [-> Hsvs]].
    simpl. rewrite (processStruct_no_env os c sfs svs _ Hsvs Hf). reflexivity.
  - rewrite Hf. reflexivity.
  - unfold setFieldFromEnv. apply negb_false_iff in Hf. rewrite Hf.
    reflexivity.
Qed.

(** Below a record without variables no field has one. *)
Lemma fieldAt_no_env (path : list nat) :
  forall (fs : fields) (prefix fieldName pre : string) (t : ty),
    hasAnyEnvVar os c fs prefix = false ->
    fieldAt fs prefix path = Some (fieldName, pre, t) ->
    fieldHasEnv os c fieldName t pre = false.
Proof.
  assert (Hfield : forall fs prefix i n r t,
    hasAnyEnvVar os c fs prefix = false ->
    Field fs i = Some (n, r, t) ->
    fieldHasEnv os c n t prefix = false).
  { induction fs as [|n0 r0 t0 rest IH]; intros prefix i n r t Hany Hf;
      [discriminate|].
    rewrite hasAnyEnvVar_cons in Hany.
    apply orb_false_elim in Hany as [Hhead Hrest].
    destruct i as [|i]; simpl in Hf.
    - injection Hf as -> -> ->. exact Hhead.
    - exact (IH prefix i n r t Hrest Hf). }
  induction path as [|i path IH]; intros fs prefix fieldName pre t Hany Hat;
    [discriminate|].
  simpl in Hat.
  destruct (Field fs i) as [[[n r] t0]|] eqn:Hf; [|discriminate].
  destruct (CanSet n); [|discriminate].
  pose proof (Hfield fs prefix i n r t0 Hany Hf) as Hhead.
  destruct path as [|j path].
  - injection Hat as <- <- <-. exact Hhead.
  - unfold fieldHasEnv in Hhead.
    destruct (classify t0) as [sfs|sfs|]; [| |discriminate];
      exact (IH sfs _ fieldName pre t Hhead Hat).
Qed.

(** In a zero record every field that is there is zero. *)
Lemma valueAt_zeros (path : list nat) :
  forall (fs : fields) (prefix fieldName pre : string) (t : ty) (v : value),
    fieldAt fs prefix path = Some (fieldName, pre, t) ->
    valueAt fs (zeros fs) path = Some v ->
    v = zero t.
Proof.
  assert (Hfield : forall fs i n r t v,
    Field fs i = Some (n, r, t) -> zeros fs !! i = Some v -> v = zero t).
  { induction fs as [|n0 r0 t0 rest IH]; intros i n r t v Hf Hv;
      [discriminate|].
    destruct i as [|i]; simpl in Hf, Hv.
    - injection Hf as -> -> ->. injection Hv as <-. reflexivity.
    - exact (IH i n r t v Hf Hv). }
  induction path as [|i path IH]; intros fs prefix fieldName pre t v Hat Hv;
    [discriminate|].
  simpl in Hat, Hv.
  destruct (Field fs i) as [[[n r] t0]|] eqn:Hf; [|discriminate].
  destruct (CanSet n); [|discriminate].
  destruct (zeros fs !! i) as [v0|] eqn:Hv0; [|discriminate].
  pose proof (Hfield fs i n r t0 v0 Hf Hv0) as ->.
  destruct path as [|j path].
  - injection Hat as <- <- <-. injection Hv as <-. reflexivity.
  - destruct (classify t0) as [sfs|sfs|] eqn:Hclass.
    + pose proof (classify_Nested _ _ Hclass) as ->. simpl in Hv.
      exact (IH sfs _ fieldName pre t v Hat Hv).
    + apply classify_Nullable in Hclass as [b ->]. discriminate.
    + discriminate.
Qed.

Lemma valueAt_step (fs : fields) (vs : list value) (i j : nat)
    (path : list nat) :
  valueAt fs vs (i :: j :: path)
  = match Field fs i, vs !! i with
    | Some (_, _, t), Some v =>
        match classify t, v with
        | Nested sfs, _ => valueAt sfs (struct_vals v) (j :: path)
        | Nullable sfs, VPtr (Some x) => valueAt sfs (struct_vals x) (j :: path)
        | _, _ => None
        end
    | _, _ => None
    end.
Proof. reflexivity. Qed.

Lemma valueAt_last (fs : fields) (vs : list value) (i : nat) :
  valueAt fs vs [i]
  = match Field fs i, vs !! i with
    | Some _, Some v => Some v
    | _, _ => None
    end.
Proof.
  simpl. destruct (Field fs i) as [[[n r] t]|]; reflexivity.
Qed.

Lemma fieldAt_step (fs : fields) (prefix : string) (i j : nat)
    (path : list nat) :
  fieldAt fs prefix (i :: j :: path)
  = match Field fs i with
    | Some (fieldName, _, t) =>
        if CanSet fieldName then
          match classify t with
          | Nested sfs | Nullable sfs =>
              fieldAt sfs (buildPrefix prefix fieldName) (j :: path)
          | Leaf => None
          end
        else None
    | None => None
    end.
Proof. reflexivity. Qed.

Lemma fieldAt_last (fs : fields) (prefix : string) (i : nat) :
  fieldAt fs prefix [i]
  = match Field fs i with
    | Some (fieldName, _, t) =>
        if CanSet fieldName then Some (fieldName, prefix, t) else None
    | None => None
    end.
Proof. reflexivity. Qed.

#[local] Arguments valueAt : simpl never.
#[local] Arguments fieldAt : simpl never.

(** A value found at a path has the type of the field there. *)
Lemma valueAt_typed (path : list nat) :
  forall (fs : fields) (vs : list value) (prefix fieldName pre : string)
         (t : ty) (v : value),
    have_types fs vs = true ->
    fieldAt fs prefix path = Some (fieldName, pre, t) ->
    valueAt fs vs path = Some v ->
    has_type t v = true.
Proof.
  induction path as [|i path IH];
    intros fs vs prefix fieldName pre t v Hty Hat Hv; [discriminate|].
  destruct path as [|j path].
  - rewrite valueAt_last in Hv. rewrite fieldAt_last in Hat.
    destruct (Field fs i) as [[[n r] t0]|] eqn:Hf; [|discriminate].
    destruct (CanSet n); [|discriminate]. injection Hat as <- <- <-.
    destruct (have_types_lookup fs vs i n r t0 Hty Hf) as [v0 [Hv0 Hty0]].
    rewrite Hv0 in Hv. injection Hv as <-. exact Hty0.
  - rewrite valueAt_step in Hv. rewrite fieldAt_step in Hat.
    destruct (Field fs i) as [[[n r] t0]|] eqn:Hf; [|discriminate].
    destruct (CanSet n); [|discriminate].
    destruct (have_types_lookup fs vs i n r t0 Hty Hf) as [v0 [Hv0 Hty0]].
    rewrite Hv0 in Hv.
    destruct (classify t0) as [sfs|sfs|] eqn:Hclass; [| |discriminate].
    + rewrite (classify_Nested _ _ Hclass) in Hty0.
      apply has_type_Nested in Hty0 as [svs [-> Hsvs]].
      exact (IH sfs svs _ fieldName pre t v Hsvs Hat Hv).
    + destruct (classify_Nullable _ _ Hclass) as [b Ht0].
      rewrite Ht0 in Hty0.
      apply has_type_Nullable in Hty0 as [->|[svs [-> Hsvs]]];
        [discriminate|].
      exact (IH sfs svs _ fieldName pre t v Hsvs Hat Hv).
Qed.

(** The walk seen from one field, at any depth.  After a successful
    [processStruct] either the field lies in a nullable record that was
    nil and stays nil, no variable being set below the field; or the field
    holds what its step makes of the value it had, read as zero when the
    record around it was nil. *)
Lemma processStruct_at (path : list nat) :
  forall (fs : fields) (vs vs' : list value) (prefix fieldName pre : string)
         (t : ty),
    have_types fs vs = true ->
    processStruct os c fs vs prefix = (vs', None) ->
    fieldAt fs prefix path = Some (fieldName, pre, t) ->
    (valueAt fs vs path = None /\ valueAt fs vs' path = None
     /\ fieldHasEnv os c fieldName t pre = false)
    \/ (let old := default (zero t) (valueAt fs vs path) in
        valueAt fs vs' path = Some (fst (processField os c fieldName t old pre))
        /\ snd (processField os c fieldName t old pre) = None).
Proof.
  induction path as [|i path IH];
    intros fs vs vs' prefix fieldName pre t Hty Hwalk Hat; [discriminate|].
  destruct path as [|j path].
  - rewrite fieldAt_last in Hat. rewrite !valueAt_last.
    destruct (Field fs i) as [[[n r] t0]|] eqn:Hf; [|discriminate].
    destruct (CanSet n) eqn:Hset; [|discriminate]. injection Hat as <- <- <-.
    destruct (have_types_lookup fs vs i n r t0 Hty Hf) as [v [Hv Hvty]].
    destruct (processStruct_field fs vs vs' prefix i n r t0 v
                Hwalk Hf Hset Hv) as [Hv' Hok].
    right. rewrite Hv, Hv'. simpl. split; [reflexivity|exact Hok].
  - rewrite fieldAt_step in Hat. rewrite !valueAt_step.
    destruct (Field fs i) as [[[n r] t0]|] eqn:Hf; [|discriminate].
    destruct (CanSet n) eqn:Hset; [|discriminate].
    destruct (have_types_lookup fs vs i n r t0 Hty Hf) as [v [Hv Hvty]].
    destruct (processStruct_field fs vs vs' prefix i n r t0 v
                Hwalk Hf Hset Hv) as [Hv' Hok].
    rewrite Hv, Hv'. unfold processField in Hv', Hok |- *.
    destruct (classify t0) as [sfs|sfs|] eqn:Hclass; [| |discriminate].
    + (* a nested record *)
      rewrite (classify_Nested _ _ Hclass) in Hvty.
      apply has_type_Nested in Hvty as [svs [-> Hsvs]]. simpl in Hok |- *.
      destruct (processStruct os c sfs svs (buildPrefix prefix n))
        as [svs' err] eqn:Hsub.
      simpl in Hok. subst err. simpl.
      exact (IH sfs svs svs' _ fieldName pre t Hsvs Hsub Hat).
    + (* a nullable record *)
      destruct (classify_Nullable _ _ Hclass) as [b Ht0].
      rewrite Ht0 in Hvty.
      destruct (hasAnyEnvVar os c sfs (buildPrefix prefix n)) eqn:Hany.
      * apply has_type_Nullable in Hvty as [->|[svs [-> Hsvs]]].
        -- destruct (processStruct os c sfs (zeros sfs) (buildPrefix prefix n))
             as [svs' err] eqn:Hsub.
           simpl in Hok. subst err. simpl.
           destruct (IH sfs (zeros sfs) svs' _ fieldName pre t
                       (have_types_zeros sfs) Hsub Hat)
             as [[_ [Hafter Hno]]|[Hafter Hok']].
           ++ left. auto.
           ++ right. simpl in Hafter, Hok' |- *.
              assert (Hold : default (zero t) (valueAt sfs (zeros sfs) (j :: path))
                             = zero t).
              { destruct (valueAt sfs (zeros sfs) (j :: path)) as [v0|] eqn:Hv0;
                  [|reflexivity].
                simpl. exact (valueAt_zeros _ sfs _ fieldName pre t v0 Hat Hv0). }
              rewrite Hold in Hafter, Hok'. auto.
        -- simpl in Hok |- *.
           destruct (processStruct os c sfs svs (buildPrefix prefix n))
             as [svs' err] eqn:Hsub.
           simpl in Hok. subst err. simpl.
           exact (IH sfs svs svs' _ fieldName pre t Hsvs Hsub Hat).
      * pose proof (fieldAt_no_env _ sfs _ fieldName pre t Hany Hat) as Hno.
        simpl.
        assert (Hsame : forall X : option value,
          (X = None -> True) ->
          (forall old, X = Some old -> has_type t old = true) ->
          (X = None /\ X = None /\ fieldHasEnv os c fieldName t pre = false)
          \/ (let old := default (zero t) X in
              X = Some (fst (processField os c fieldName t old pre))
              /\ snd (processField os c fieldName t old pre) = None)).
        { intros [old|] _ Hold; [right|left; auto].
          simpl. rewrite (processField_no_env _ _ _ _ (Hold old eq_refl) Hno).
          split; reflexivity. }
        apply has_type_Nullable in Hvty as [->|[svs [-> Hsvs]]].
        -- left. auto.
        -- apply Hsame; [auto|]. intros old Hold.
           exact (valueAt_typed _ sfs svs _ fieldName pre t old Hsvs Hat Hold).
Qed.

End WalkPaths.

(** ** Load: environment over YAML *)

Section LoadFacts.

Context {P : Platform}.
Variable os : OS.
Variable c : Config.

Lemma Load_StructPointer (fs : fields) (vs : list value) :
  Load os c (StructPointer fs vs)
  = let '(vs1, err) := yamlStep os c fs vs in
    match err with
    | Some e => (StructPointer fs vs1, Some (Wrapf "failed to load YAML" e))
    | None =>
        let '(vs2, err') := processStruct os c fs vs1 "" in
        (StructPointer fs vs2, Wrapf "failed to load from env" <$> err')
    end.
Proof.
  unfold Load, yamlStep, loadFromEnv.
  destruct (if Bytes.is_empty (yamlFile c) then (vs, None)
            else loadFromYAML os c fs vs) as [vs1 [e|]]; [reflexivity|].
  destruct (processStruct os c fs vs1 "") as [vs2 [e|]]; reflexivity.
Qed.

(** A successful [Load] is a successful YAML step followed by a
    successful walk of its result. *)
Lemma Load_ok (fs : fields) (vs vs' : list value) :
  Load os c (StructPointer fs vs) = (StructPointer fs vs', None) ->
  snd (yamlStep os c fs vs) = None
  /\ processStruct os c fs (fst (yamlStep os c fs vs)) "" = (vs', None).
Proof.
  rewrite Load_StructPointer.
  destruct (yamlStep os c fs vs) as [vs1 [e|]]; [discriminate|].
  simpl. destruct (processStruct os c fs vs1 "") as [vs2 [e|]];
    [discriminate|].
  intros [= <-]. split; reflexivity.
Qed.

Lemma yamlStep_typed (fs : fields) (vs : list value) :
  have_types fs vs = true ->
  have_types fs (fst (yamlStep os c fs vs)) = true.
Proof.
  intros Hty. unfold yamlStep, loadFromYAML.
  destruct (Bytes.is_empty (yamlFile c)); [exact Hty|].
  destruct (ReadFile os (yamlFile c)) as [|e|data]; try exact Hty.
  pose proof (yaml_Unmarshal_typed data fs vs Hty) as Hdoc.
  destruct (yaml_Unmarshal data fs vs) as [vs1 [e|]]; exact Hdoc.
Qed.

Lemma Getenv_set (name s : string) :
  environ os !! name = Some s -> Getenv os name = s.
Proof. unfold Getenv. intros ->. reflexivity. Qed.

Lemma Getenv_empty (name : string) :
  environ os !! name = None \/ environ os !! name = Some "" ->
  Getenv os name = "".
Proof. unfold Getenv. intros [->| ->]; reflexivity. Qed.

(** C1, amended: after a [Load] that returns no error, a settable leaf
    field whose variable is set to a non-empty string holds the value
    coerced from it, whatever the YAML step had put there; a leaf whose
    variable is unset or set to the empty string keeps the value of the
    YAML step, or is zero when the record around it was created by the
    environment step. *)
Theorem C1_env_overrides_yaml (fs : fields) (vs vs' : list value)
    (path : list nat) (fieldName pre : string) (t : ty) :
  have_types fs vs = true ->
  Load os c (StructPointer fs vs) = (StructPointer fs vs', None) ->
  fieldAt fs "" path = Some (fieldName, pre, t) ->
  classify t = Leaf ->
  let name := envNameOf c fieldName pre in
  let yaml := valueAt fs (fst (yamlStep os c fs vs)) path in
  (forall s,
      environ os !! name = Some s -> s <> "" ->
      valueAt fs vs' path
      = Some (fst (setFieldValue t (default (zero t) yaml) s))
      /\ snd (setFieldValue t (default (zero t) yaml) s) = None)
  /\ (environ os !! name = None \/ environ os !! name = Some "" ->
      valueAt fs vs' path = yaml
      \/ (yaml = None /\ valueAt fs vs' path = Some (zero t))).
Proof.
  intros Hty Hload Hat Hleaf name yaml.
  apply Load_ok in Hload as [_ Hwalk].
  pose proof (processStruct_at os c path fs _ vs' "" fieldName pre t
                (yamlStep_typed fs vs Hty) Hwalk Hat) as Hfield.
  unfold fieldHasEnv, processField, setFieldFromEnv in Hfield.
  rewrite Hleaf in Hfield. fold name yaml in Hfield. split.
  - intros s Hs Hne. rewrite (Getenv_set name s Hs) in Hfield.
    rewrite (is_empty_false s Hne) in Hfield.
    destruct Hfield as [[_ [_ Hno]]|[Hafter Hok]]; [discriminate|].
    simpl in Hafter, Hok.
    destruct (setFieldValue t (default (zero t) yaml) s) as [v' [e|]];
      [discriminate|].
    split; [exact Hafter|reflexivity].
  - intros Hunset. rewrite (Getenv_empty name Hunset) in Hfield.
    simpl in Hfield.
    destruct Hfield as [[Hbefore [Hafter _]]|[Hafter _]].
    + left. congruence.
    + destruct yaml as [old|]; simpl in Hafter; [left|right]; auto.
Qed.

(** C3, amended: after a [Load] that returns no error, a settable
    nullable record none of whose leaf variables has a non-empty value is
    as the YAML step left it (nil when the YAML step left it nil, and nil
    as well when the record around it was created by the environment
    step); when one of these variables has a non-empty value the record is
    allocated and holds what the walk of a non-nullable nested record
    makes of its previous contents, or of a zero record when it was nil. *)
Theorem C3_nullable_record (fs : fields) (vs vs' : list value)
    (path : list nat) (fieldName pre : string) (t : ty) (sfs : fields) :
  have_types fs vs = true ->
  Load os c (StructPointer fs vs) = (StructPointer fs vs', None) ->
  fieldAt fs "" path = Some (fieldName, pre, t) ->
  classify t = Nullable sfs ->
  let names := leafEnvNames c sfs (buildPrefix pre fieldName) in
  let yaml := valueAt fs (fst (yamlStep os c fs vs)) path in
  let pointee :=
    match yaml with
    | Some (VPtr (Some x)) => struct_vals x
    | _ => zeros sfs
    end in
  ((forall name, In name names -> Getenv os name = "") ->
   valueAt fs vs' path = yaml
   \/ (yaml = None /\ valueAt fs vs' path = Some (VPtr None)))
  /\ ((exists name, In name names /\ Getenv os name <> "") ->
      exists svs,
        valueAt fs vs' path = Some (VPtr (Some (VStruct svs)))
        /\ processField os c fieldName (TStruct false sfs) (VStruct pointee) pre
           = (VStruct svs, None)).
Proof.
  intros Hty Hload Hat Hclass names yaml pointee.
  apply Load_ok in Hload as [_ Hwalk].
  pose proof (processStruct_at os c path fs _ vs' "" fieldName pre t
                (yamlStep_typed fs vs Hty) Hwalk Hat) as Hfield.
  unfold fieldHasEnv in Hfield. unfold processField in Hfield at 1 2.
  rewrite Hclass in Hfield. fold yaml in Hfield.
  rewrite hasAnyEnvVar_leafEnvNames in Hfield. fold names in Hfield.
  split.
  - intros Hnone.
    assert (Hany : existsb (fun name => negb (Bytes.is_empty (Getenv os name)))
                     names = false).
    { apply not_true_is_false. intros Hex.
      apply existsb_exists in Hex as [name [Hin Hne]].
      rewrite (Hnone name Hin) in Hne. discriminate. }
    rewrite Hany in Hfield. simpl in Hfield.
    destruct Hfield as [[Hbefore [Hafter _]]|[Hafter _]].
    + left. congruence.
    + destruct yaml as [old|]; simpl in Hafter; [left|right]; auto.
      destruct (classify_Nullable _ _ Hclass) as [b ->]. auto.
  - intros [name [Hin Hne]].
    assert (Hany : existsb (fun name => negb (Bytes.is_empty (Getenv os name)))
                     names = true).
    { apply existsb_exists. exists name. split; [exact Hin|].
      apply negb_true_iff, not_true_is_false. rewrite is_empty_true.
      exact Hne. }
    rewrite Hany in Hfield.
    destruct Hfield as [[_ [_ Hno]]|[Hafter Hok]]; [discriminate|].
    simpl in Hafter, Hok.
    assert (Hpointee :
      match default (VPtr None) yaml with
      | VPtr (Some x) => struct_vals x
      | _ => zeros sfs
      end = pointee).
    { unfold pointee. destruct yaml as [[]|]; reflexivity. }
    unfold processField. simpl.
    replace (default (zero t) yaml) with (default (VPtr None) yaml)
      in Hafter, Hok
      by (destruct (classify_Nullable _ _ Hclass) as [b ->]; reflexivity).
    rewrite Hpointee in Hafter, Hok.
    destruct (processStruct os c sfs pointee (buildPrefix pre fieldName))
      as [svs [e|]]; [discriminate|].
    exists svs. split; [exact Hafter|reflexivity].
Qed.

End LoadFacts.

Lemma C1_env_overrides_yaml_witness :
  valueAt TestTypes.TestConfig Scenarios.override_result [0; 0]%nat
  = Some (VString "env-host")
  /\ valueAt TestTypes.TestConfig Scenarios.override_result [1; 0]%nat
     = Some (VString "postgres://yaml-db/test").
Proof.
  assert (Hload :
    Load (P := Scenarios.platform) Scenarios.override_os Scenarios.from_file
      (StructPointer TestTypes.TestConfig (zeros TestTypes.TestConfig))
    = (StructPointer TestTypes.TestConfig Scenarios.override_result, None))
    by (vm_compute; reflexivity).
  split.
  - destruct (C1_env_overrides_yaml (P := Scenarios.platform)
                Scenarios.override_os Scenarios.from_file
                TestTypes.TestConfig (zeros TestTypes.TestConfig)
                Scenarios.override_result [0; 0]%nat "Host" "server" TString
                eq_refl Hload eq_refl eq_refl) as [Hset _].
    destruct (Hset "env-host") as [Hafter _];
      [vm_compute; reflexivity|discriminate|].
    exact Hafter.
  - destruct (C1_env_overrides_yaml (P := Scenarios.platform)
                Scenarios.override_os Scenarios.from_file
                TestTypes.TestConfig (zeros TestTypes.TestConfig)
                Scenarios.override_result [1; 0]%nat "URL" "database" TString
                eq_refl Hload eq_refl eq_refl) as [_ Hunset].
    destruct Hunset as [Hkeep|[Hnone _]].
    + left. vm_compute. reflexivity.
    + rewrite Hkeep. vm_compute. reflexivity.
    + vm_compute in Hnone. discriminate.
Defined.

(** C1 as stated fails: the variable [SERVER_HOST] is set, to the empty
    string, and after [Load] the field [Server.Host] holds the value from
    the YAML file and not the value coerced from the variable. *)
Lemma C1_counterexample :
  let fs := TestTypes.TestConfig in
  let os := Scenarios.empty_host_os in
  have_types fs (zeros fs) = true
  /\ Load (P := Scenarios.platform) os Scenarios.from_file
       (StructPointer fs (zeros fs))
     = (StructPointer fs Scenarios.empty_host_result, None)
  /\ fieldAt fs "" [0; 0]%nat = Some ("Host", "server", TString)
  /\ classify TString = Leaf
  /\ environ os !! envNameOf Scenarios.from_file "Host" "server" = Some ""
  /\ valueAt fs Scenarios.empty_host_result [0; 0]%nat
     = Some (VString "yaml-host")
  /\ setFieldValue (P := Scenarios.platform) TString (VString "yaml-host") ""
     = (VString "", None)
  /\ valueAt fs Scenarios.empty_host_result [0; 0]%nat
     <> Some (fst (setFieldValue (P := Scenarios.platform) TString
                     (VString "yaml-host") "")).
Proof.
  repeat split; try (vm_compute; reflexivity).
  vm_compute. discriminate.
Qed.

Lemma C3_nullable_record_witness :
  (exists svs,
      valueAt TestTypes.TestConfig Scenarios.redis_result [2]%nat
      = Some (VPtr (Some (VStruct svs)))
      /\ processField (P := Scenarios.platform) Scenarios.redis_os New "Redis"
           (TStruct false TestTypes.RedisConfig)
           (VStruct (zeros TestTypes.RedisConfig)) ""
         = (VStruct svs, None))
  /\ valueAt TestTypes.TestConfig Scenarios.redis_result [1; 3]%nat
     = Some (VPtr None).
Proof.
  assert (Hload :
    Load (P := Scenarios.platform) Scenarios.redis_os New
      (StructPointer TestTypes.TestConfig (zeros TestTypes.TestConfig))
    = (StructPointer TestTypes.TestConfig Scenarios.redis_result, None))
    by (vm_compute; reflexivity).
  split.
  - destruct (C3_nullable_record (P := Scenarios.platform)
                Scenarios.redis_os New
                TestTypes.TestConfig (zeros TestTypes.TestConfig)
                Scenarios.redis_result [2]%nat "Redis" ""
                (TPtr (TStruct false TestTypes.RedisConfig))
                TestTypes.RedisConfig
                eq_refl Hload eq_refl eq_refl) as [_ Halloc].
    apply Halloc. exists "REDIS_HOST". split.
    + vm_compute. auto.
    + vm_compute. discriminate.
  - destruct (C3_nullable_record (P := Scenarios.platform)
                Scenarios.redis_os New
                TestTypes.TestConfig (zeros TestTypes.TestConfig)
                Scenarios.redis_result [1; 3]%nat "Credentials" "database"
                (TPtr (TStruct false TestTypes.Credentials))
                TestTypes.Credentials
                eq_refl Hload eq_refl eq_refl) as [Hnil _].
    destruct Hnil as [Hkeep|[Hnone _]].
    + intros name Hin. vm_compute in Hin.
      destruct Hin as [<-|[<-|[]]]; vm_compute; reflexivity.
    + rewrite Hkeep. vm_compute. reflexivity.
    + vm_compute in Hnone. discriminate.
Defined.

(** C3 as stated fails: no variable is set at all, the YAML file supplies
    [database.credentials], and after [Load] the nullable record
    [Database.Credentials] is not nil. *)
Lemma C3_counterexample :
  let fs := TestTypes.TestConfig in
  let os := Scenarios.full_os in
  have_types fs (zeros fs) = true
  /\ Load (P := Scenarios.platform) os Scenarios.from_file
       (StructPointer fs (zeros fs))
     = (StructPointer fs Scenarios.full_doc, None)
  /\ fieldAt fs "" [1; 3]%nat
     = Some ("Credentials", "database", TPtr (TStruct false TestTypes.Credentials))
  /\ classify (TPtr (TStruct false TestTypes.Credentials))
     = Nullable TestTypes.Credentials
  /\ leafEnvNames Scenarios.from_file TestTypes.Credentials
       (buildPrefix "database" "Credentials")
     = ["DATABASE_CREDENTIALS_USERNAME"; "DATABASE_CREDENTIALS_PASSWORD"]
  /\ environ os = ∅
  /\ valueAt fs Scenarios.full_doc [1; 3]%nat
     = Some (VPtr (Some (VStruct [VString "yaml-user"; VString "yaml-pass"])))
  /\ valueAt fs Scenarios.full_doc [1; 3]%nat <> Some (VPtr None).
Proof.
  repeat split; try (vm_compute; reflexivity).
  vm_compute. discriminate.
Qed.

(** ** Empty variables and custom names *)

Lemma Getenv_empty_unset (os : OS) (key name : string) :
  Getenv (Setenv os key "") name = Getenv (Unsetenv os key) name.
Proof.
  unfold Getenv, Setenv, Unsetenv. simpl.
  destruct (decide (key = name)) as [->|Hne].
  - rewrite lookup_insert_eq, lookup_delete_eq. reflexivity.
  - rewrite lookup_insert_ne, lookup_delete_ne by exact Hne. reflexivity.
Qed.

(** [Load] reads the environment and the binder's naming only through the
    values of the variables of the leaves of the target. *)
Lemma Load_cong {P : Platform} (os1 os2 : OS) (c1 c2 : Config)
    (fs : fields) (vs : list value) :
  yamlFile c1 = yamlFile c2 ->
  ReadFile os1 (yamlFile c1) = ReadFile os2 (yamlFile c1) ->
  (forall fieldName pre,
      In (fieldName, pre) (leafFields fs "") ->
      Getenv os1 (envNameOf c1 fieldName pre)
      = Getenv os2 (envNameOf c2 fieldName pre)) ->
  Load os1 c1 (StructPointer fs vs) = Load os2 c2 (StructPointer fs vs).
Proof.
  intros Hfile Hread Hagree.
  destruct (walk_cong os1 os2 c1 c2 fs "" Hagree) as [_ Hwalk].
  rewrite !Load_StructPointer.
  assert (Hyaml : yamlStep os1 c1 fs vs = yamlStep os2 c2 fs vs).
  { unfold yamlStep, loadFromYAML. rewrite <- Hfile, Hread. reflexivity. }
  rewrite Hyaml. destruct (yamlStep os2 c2 fs vs) as [vs1 [e|]];
    [reflexivity|].
  rewrite Hwalk. reflexivity.
Qed.

(** C9: a variable set to the empty string is the same as an unset one.
    [Load], [MustLoad], [LoadFromFile] and [LoadFromEnv] give the same
    result in both environments; [hasAnyEnvVar] gives the same answer, so
    the variable does not count as existing when a nullable record is
    considered; the step at a leaf whose variable is set to the empty
    string leaves the field alone and reports no error; and a string field
    is either left as it was or set to a non-empty string, never to the
    empty one. *)
Theorem C9_empty_variable_is_unset {P : Platform} (os : OS) (key : string) :
  (forall c cfg, Load (Setenv os key "") c cfg = Load (Unsetenv os key) c cfg)
  /\ (forall c cfg,
         MustLoad (Setenv os key "") c cfg = MustLoad (Unsetenv os key) c cfg)
  /\ (forall file opts cfg,
         LoadFromFile (Setenv os key "") file opts cfg
         = LoadFromFile (Unsetenv os key) file opts cfg)
  /\ (forall opts fs vs,
         LoadFromEnv (Setenv os key "") opts fs vs
         = LoadFromEnv (Unsetenv os key) opts fs vs)
  /\ (forall c fs prefix,
         hasAnyEnvVar (Setenv os key "") c fs prefix
         = hasAnyEnvVar (Unsetenv os key) c fs prefix)
  /\ (forall t field,
         setFieldFromEnv (Setenv os key "") t field key = (field, None))
  /\ (forall (os' : OS) field name,
         setFieldFromEnv os' TString field name = (field, None)
         \/ exists s,
              s <> ""
              /\ setFieldFromEnv os' TString field name = (VString s, None)).
Proof.
  assert (Hwalk : forall c fs prefix,
    hasAnyEnvVar (Setenv os key "") c fs prefix
    = hasAnyEnvVar (Unsetenv os key) c fs prefix
    /\ forall vs,
         processStruct (Setenv os key "") c fs vs prefix
         = processStruct (Unsetenv os key) c fs vs prefix).
  { intros c fs prefix.
    apply (walk_cong (Setenv os key "") (Unsetenv os key) c c fs prefix).
    intros fieldName pre _. apply Getenv_empty_unset. }
  assert (Hload : forall c cfg,
    Load (Setenv os key "") c cfg = Load (Unsetenv os key) c cfg).
  { intros c [|fs vs|fs vs|]; try reflexivity.
    apply Load_cong; try reflexivity.
    intros fieldName pre _. apply Getenv_empty_unset. }
  split; [exact Hload|].
  split; [|split; [|split; [|split; [|split]]]].
  - intros c cfg. unfold MustLoad. rewrite Hload. reflexivity.
  - intros file opts cfg. apply Hload.
  - intros opts fs vs. apply Hwalk.
  - intros c fs prefix. apply Hwalk.
  - intros t field. unfold setFieldFromEnv, Getenv, Setenv. simpl.
    rewrite lookup_insert_eq. reflexivity.
  - intros os' field name. unfold setFieldFromEnv.
    destruct (Getenv os' name) as [|ch s] eqn:Hget; [left; reflexivity|].
    right. exists (String ch s). split; [discriminate|reflexivity].
Qed.

(** *** Custom names *)

Lemma last2_app (p x : string) :
  (2 <= String.length x)%nat -> last2 (p ++ x) = last2 x.
Proof.
  intros Hlen. induction p as [|a p IH]; [reflexivity|].
  change (String a p ++ x) with (String a (p ++ x)).
  assert (Hlen' : (2 <= String.length (p ++ x))%nat).
  { clear IH. induction p as [|b p IHp]; simpl; [exact Hlen|lia]. }
  rewrite <- IH.
  destruct (p ++ x) as [|b [|d r]]; simpl in Hlen'; try lia. reflexivity.
Qed.

Lemma ToUpper_app (a b : string) :
  Bytes.ToUpper (a ++ b) = Bytes.ToUpper a ++ Bytes.ToUpper b.
Proof.
  induction a as [|ch a IH]; [reflexivity|].
  change (Bytes.ToUpper (String ch a ++ b))
    with (String (Bytes.to_upper ch) (Bytes.ToUpper (a ++ b))).
  rewrite IH. reflexivity.
Qed.

Lemma ToUpper_length (a : string) :
  String.length (Bytes.ToUpper a) = String.length a.
Proof. induction a as [|ch a IH]; simpl; [reflexivity|]. f_equal. exact IH. Qed.

(** In the custom-mapping scenario, with a non-empty prefix, a derived
    name never ends like [CUSTOM_HOST] or [CUSTOM_PORT] when the name
    without the prefix does not, so its variable is not set. *)
Lemma custom_os_derived (a : ascii) (p fieldName pre : string) :
  let c := Scenarios.custom_config (String a p) in
  let x := if Bytes.is_empty pre then toSnakeCase fieldName
           else pre ++ "_" ++ toSnakeCase fieldName in
  (2 <=? String.length x)%nat
  && negb (String.eqb (last2 (Bytes.ToUpper x)) "ST")
  && negb (String.eqb (last2 (Bytes.ToUpper x)) "RT") = true ->
  Getenv Scenarios.custom_os (getEnvName c fieldName pre) = "".
Proof.
  intros c x Hx.
  apply andb_prop in Hx as [Hx Hrt]. apply andb_prop in Hx as [Hlen Hst].
  apply Nat.leb_le in Hlen.
  apply negb_true_iff, String.eqb_neq in Hst, Hrt.
  assert (Hname : last2 (getEnvName c fieldName pre) = last2 (Bytes.ToUpper x)).
  { unfold getEnvName. fold x.
    change (envPrefix c) with (String a p).
    change (Bytes.is_empty (String a p)) with false. cbv iota.
    rewrite ToUpper_app, last2_app.
    - change (Bytes.ToUpper ("_" ++ x)) with ("_" ++ Bytes.ToUpper x).
      apply last2_app. rewrite ToUpper_length. exact Hlen.
    - rewrite ToUpper_length.
      change (2 <= S (String.length x))%nat. lia. }
  unfold Getenv, Scenarios.custom_os, Sample.env_only. simpl.
  rewrite !lookup_insert_ne, lookup_empty; [reflexivity| |];
    intros Heq; rewrite <- Heq in Hname; simpl in Hname; congruence.
Qed.

(** The scenario gives the same result with any prefix. *)
Lemma custom_scenario {P : Platform} (prefix : string) :
  Load Scenarios.custom_os (Scenarios.custom_config prefix)
    (StructPointer TestTypes.TestConfig (zeros TestTypes.TestConfig))
  = (StructPointer TestTypes.TestConfig Scenarios.custom_result, None).
Proof.
  destruct prefix as [|a p]; [vm_compute; reflexivity|].
  rewrite (Load_cong Scenarios.custom_os Scenarios.custom_os
             (Scenarios.custom_config (String a p)) (Scenarios.custom_config "")
             TestTypes.TestConfig (zeros TestTypes.TestConfig)
             eq_refl eq_refl); [vm_compute; reflexivity|].
  intros fieldName pre Hin. vm_compute in Hin.
  assert (Hmapped : forall name custom pre',
    Scenarios.custom_mapping !! name = Some custom ->
    Getenv Scenarios.custom_os
      (envNameOf (Scenarios.custom_config (String a p)) name pre')
    = Getenv Scenarios.custom_os
        (envNameOf (Scenarios.custom_config "") name pre')).
  { intros name custom pre' Hmap. unfold envNameOf. simpl. rewrite Hmap.
    reflexivity. }
  assert (Hderived : forall name pre',
    Scenarios.custom_mapping !! name = None ->
    Getenv Scenarios.custom_os
      (getEnvName (Scenarios.custom_config (String a p)) name pre') = "" ->
    Getenv Scenarios.custom_os
      (getEnvName (Scenarios.custom_config "") name pre') = "" ->
    Getenv Scenarios.custom_os
      (envNameOf (Scenarios.custom_config (String a p)) name pre')
    = Getenv Scenarios.custom_os
        (envNameOf (Scenarios.custom_config "") name pre')).
  { intros name pre' Hmap Hp H0. unfold envNameOf. simpl. rewrite Hmap.
    congruence. }
  repeat (destruct Hin as [[= <- <-]|Hin];
          [first [ apply (Hmapped _ "CUSTOM_HOST"); vm_compute; reflexivity
                 | apply (Hmapped _ "CUSTOM_PORT"); vm_compute; reflexivity
                 | apply Hderived;
                   [ vm_compute; reflexivity
                   | apply custom_os_derived; vm_compute; reflexivity
                   | vm_compute; reflexivity ] ]|]).
  destruct Hin.
Qed.

(** C5: a leaf field whose bare name has an entry in the mapping is
    looked up under the mapped name as it is written, whatever the prefix
    built from its ancestors and whatever [envPrefix]: the step at the
    field reads exactly that variable.  In the custom-mapping scenario
    [Load] succeeds with [Server.Host] set to [custom-host] and
    [Server.Port] to 9090, for every [envPrefix]. *)
Theorem C5_custom_mapping {P : Platform} :
  (forall (c : Config) (fieldName customName : string),
      envMapping c !! fieldName = Some customName ->
      forall (os : OS) (t : ty) (field : value) (prefix : string),
        classify t = Leaf ->
        envNameOf c fieldName prefix = customName
        /\ processField os c fieldName t field prefix
           = (fst (setFieldFromEnv os t field customName),
              Wrapf ("failed to set field " ++ fieldName)
                <$> snd (setFieldFromEnv os t field customName))
        /\ fieldHasEnv os c fieldName t prefix
           = negb (Bytes.is_empty (Getenv os customName)))
  /\ (forall envPrefix : string,
         Load Scenarios.custom_os (Scenarios.custom_config envPrefix)
           (StructPointer TestTypes.TestConfig (zeros TestTypes.TestConfig))
         = (StructPointer TestTypes.TestConfig Scenarios.custom_result, None))
  /\ valueAt TestTypes.TestConfig Scenarios.custom_result [0; 0]%nat
     = Some (VString "custom-host")
  /\ valueAt TestTypes.TestConfig Scenarios.custom_result [0; 1]%nat
     = Some (VInt 9090).
Proof.
  split; [|split; [exact custom_scenario|split; reflexivity]].
  intros c fieldName customName Hmap os t field prefix Hleaf.
  assert (Hname : envNameOf c fieldName prefix = customName)
    by (unfold envNameOf; rewrite Hmap; reflexivity).
  unfold processField, fieldHasEnv. rewrite Hleaf, Hname.
  split; [reflexivity|]. split; [|reflexivity].
  destruct (setFieldFromEnv os t field customName) as [field' err].
  reflexivity.
Qed.

Lemma C5_custom_mapping_witness :
  envNameOf (Scenarios.custom_config "MYAPP") "Port" "server" = "CUSTOM_PORT"
  /\ processField (P := Scenarios.platform) Scenarios.custom_os
       (Scenarios.custom_config "MYAPP") "Port" (TInt Int) (VInt 0) "server"
     = (VInt 9090, None).
Proof.
  destruct (proj1 (C5_custom_mapping (P := Scenarios.platform))
              (Scenarios.custom_config "MYAPP") "Port" "CUSTOM_PORT"
              ltac:(vm_compute; reflexivity)
              Scenarios.custom_os (TInt Int) (VInt 0) "server" eq_refl)
    as [Hname [Hstep _]].
  split; [exact Hname|]. rewrite Hstep. vm_compute. reflexivity.
Defined.

(** ** Validate *)

(** C4 fails on the code: for a required field that is a nested record
    with a slice in it, [isZeroValue] compares two interface values of an
    uncomparable type, and [Validate] panics, both when the field is
    non-zero (where the claim has it return success) and when it is zero
    (where the claim has it return the error for [Features]). *)
Theorem C4_required_record_with_slice_panics :
  comparable (TStruct false TestTypes.FeatureFlags) = false
  /\ Validate
       (StructPointer Scenarios.RequiredFeatures
          [VStruct [VBool true; VBool false; VSlice (Some [VString "10.0.0.1"])]])
     = Panicked "runtime error: comparing uncomparable type"
  /\ Validate (StructPointer Scenarios.RequiredFeatures (zeros Scenarios.RequiredFeatures))
     = Panicked "runtime error: comparing uncomparable type".
Proof. repeat split. Qed.

(** *** What [Validate] answers when it returns *)

Lemma isZeroValue_holds_zero (ro : bool) (t : ty) (v : value) (b : bool) :
  isZeroValue ro t v = Returned b -> holds_zero t v = b.
Proof.
  unfold holds_zero.
  destruct t as [| | | | | | | | |st fs|k]; simpl;
    try (intros [= <-]; reflexivity).
  - destruct ro; [discriminate|]. intros ->. reflexivity.
  - destruct k; intros [= <-]; reflexivity.
Qed.

(** On the kinds [isZeroValue] has a case for, other than structs and
    floats, a typed value holds zero exactly when it is [reflect.Zero]. *)
Lemma holds_zero_zero (t : ty) (v : value) :
  has_type t v = true ->
  match t with
  | TString | TBool | TInt _ | TDuration | TUint _ | TSlice _ | TPtr _
  | TOther Map | TOther Interface | TOther Chan | TOther Func =>
      holds_zero t v = true <-> v = zero t
  | TFloat _ =>
      holds_zero t v = true <-> v = VFloat 0 \/ v = VFloat (2 ^ 63)
  | _ => True
  end.
Proof.
  unfold holds_zero.
  destruct t as [| | | | | | | | |st fs|k]; try exact (fun _ => I);
    destruct v as [s|b|n|n|bits|[xs|]|xs|[x|]|xs|z]; try discriminate;
    simpl; intros _.
  - destruct s; simpl; split; congruence.
  - destruct b; simpl; split; congruence.
  - rewrite Z.eqb_eq. split; congruence.
  - rewrite Z.eqb_eq. split; congruence.
  - rewrite Z.eqb_eq. split; congruence.
  - unfold float_is_zero. rewrite orb_true_iff, !Z.eqb_eq.
    split; intros [H|H]; [left|right|left|right]; congruence.
  - split; congruence.
  - split; congruence.
  - split; congruence.
  - split; congruence.
  - destruct k; try exact I; destruct z; simpl; split; congruence.
Qed.

Lemma visitedAt_head (n tag : string) (t : ty) (rest : fields) (v : value)
    (vs : list value) (prefix : string) :
  visitedAt (FCons n tag t rest) (v :: vs) prefix [0%nat]
  = Some (buildFieldPath prefix n, tag, t, v).
Proof. reflexivity. Qed.

Lemma visitedAt_below (n tag : string) (t : ty) (rest : fields) (v : value)
    (vs : list value) (prefix : string) (j : nat) (path : list nat) :
  visitedAt (FCons n tag t rest) (v :: vs) prefix (0%nat :: j :: path)
  = match classify t, v with
    | Nested sfs, _ =>
        visitedAt sfs (struct_vals v) (buildFieldPath prefix n) (j :: path)
    | Nullable sfs, VPtr (Some x) =>
        visitedAt sfs (struct_vals x) (buildFieldPath prefix n) (j :: path)
    | _, _ => None
    end.
Proof. reflexivity. Qed.

Lemma visitedAt_rest (n tag : string) (t : ty) (rest : fields) (v : value)
    (vs : list value) (prefix : string) (i : nat) (path : list nat) :
  visitedAt (FCons n tag t rest) (v :: vs) prefix (S i :: path)
  = visitedAt rest vs prefix (i :: path).
Proof. reflexivity. Qed.

Lemma validateStruct_cons (ro : bool) (fieldName tag : string) (t : ty)
    (rest : fields) (field : value) (vs : list value) (prefix : string) :
  validateStruct ro (FCons fieldName tag t rest) (field :: vs) prefix
  = let ro' := ro || negb (CanSet fieldName) in
    let after_check :=
      match validate_below ro' fieldName t field prefix with
      | Returned None => validateStruct ro rest vs prefix
      | stop => stop
      end in
    if String.eqb tag "true" then
      match isZeroValue ro' t field with
      | Panicked msg => Panicked msg
      | Returned true =>
          Returned (Some (Errorf ("required field is empty: "
                                  ++ buildFieldPath prefix fieldName)))
      | Returned false => after_check
      end
    else after_check.
Proof.
  unfold validate_below. simpl.
  destruct t as [| | | | | | | |e|st fs|]; try reflexivity.
  - destruct e as [| | | | | | | | |st fs|]; try reflexivity;
      destruct field as [| | | | | | |[x|]| |]; try reflexivity.
    simpl.
    destruct (validateStruct _ fs (struct_vals x) _) as [[e|]|msg];
      reflexivity.
  - destruct st; [reflexivity|]. simpl.
    destruct (validateStruct _ fs (struct_vals field) _) as [[e|]|msg];
      reflexivity.
Qed.

Lemma missing_at_nil (fs : fields) (vs : list value) (prefix dotted : string) :
  ~ missing_at fs vs prefix [] dotted.
Proof. intros [t [v [Hv _]]]. discriminate. Qed.

Lemma missing_at_short (fs : fields) (prefix dotted : string)
    (path : list nat) :
  ~ missing_at fs [] prefix path dotted.
Proof.
  intros [t [v [Hv _]]]. destruct path as [|i path]; [discriminate|].
  simpl in Hv. destruct (Field fs i) as [[[n r] t0]|]; discriminate.
Qed.

Lemma path_before_last (p : list nat) (i : nat) :
  path_before p [i] = true -> p = [] \/ exists j q, p = j :: q /\ (j < i)%nat.
Proof.
  destruct p as [|j q]; [auto|]. simpl. intros H. right. exists j, q.
  split; [reflexivity|].
  apply orb_prop in H as [H|H]; [apply Nat.ltb_lt; exact H|].
  apply andb_prop in H as [_ H]. destruct q; discriminate.
Qed.

Section ValidateBelow.

Variables (fieldName tag : string) (t : ty) (rest : fields).

Hypothesis IHs : forall sfs,
  classify t = Nested sfs ->
  forall ro vs prefix r,
    validateStruct ro sfs vs prefix = Returned r -> validate_spec sfs vs prefix r.
Hypothesis IHp : forall sfs,
  classify t = Nullable sfs ->
  forall ro vs prefix r,
    validateStruct ro sfs vs prefix = Returned r -> validate_spec sfs vs prefix r.

(** The part of the claim that concerns the records below one field. *)
Lemma validate_below_spec (field : value) (vs : list value) (prefix : string)
    (ro : bool) (r : option error) :
  validate_below ro fieldName t field prefix = Returned r ->
  match r with
  | None =>
      forall j q dotted,
        ~ missing_at (FCons fieldName tag t rest) (field :: vs) prefix
            (0%nat :: j :: q) dotted
  | Some e =>
      exists j q dotted,
        missing_at (FCons fieldName tag t rest) (field :: vs) prefix
          (0%nat :: j :: q) dotted
        /\ e = Errorf ("required field is empty: " ++ dotted)
        /\ forall j' q' dotted',
             path_before (j' :: q') (j :: q) = true ->
             ~ missing_at (FCons fieldName tag t rest) (field :: vs) prefix
                 (0%nat :: j' :: q') dotted'
  end.
Proof.
  assert (Hsub : forall sfs svs,
    (forall j q, visitedAt (FCons fieldName tag t rest) (field :: vs) prefix
                   (0%nat :: j :: q)
                 = visitedAt sfs svs (buildFieldPath prefix fieldName) (j :: q)) ->
    forall ro', validateStruct ro' sfs svs (buildFieldPath prefix fieldName)
                = Returned r ->
    validate_spec sfs svs (buildFieldPath prefix fieldName) r ->
    match r with
    | None =>
        forall j q dotted,
          ~ missing_at (FCons fieldName tag t rest) (field :: vs) prefix
              (0%nat :: j :: q) dotted
    | Some e =>
        exists j q dotted,
          missing_at (FCons fieldName tag t rest) (field :: vs) prefix
            (0%nat :: j :: q) dotted
          /\ e = Errorf ("required field is empty: " ++ dotted)
          /\ forall j' q' dotted',
               path_before (j' :: q') (j :: q) = true ->
               ~ missing_at (FCons fieldName tag t rest) (field :: vs) prefix
                   (0%nat :: j' :: q') dotted'
    end).
  { intros sfs svs Hvis ro' _ Hspec. unfold missing_at.
    destruct r as [e|]; simpl in Hspec.
    - destruct Hspec as [[|j q] [dotted [Hmiss [He Hfirst]]]];
        [exfalso; exact (missing_at_nil _ _ _ _ Hmiss)|].
      exists j, q, dotted. rewrite Hvis. split; [exact Hmiss|].
      split; [exact He|].
      intros j' q' dotted' Hbefore. rewrite Hvis.
      exact (Hfirst (j' :: q') dotted' Hbefore).
    - intros j q dotted. rewrite Hvis. exact (Hspec (j :: q) dotted). }
  unfold validate_below. intros Hbelow.
  destruct (classify t) as [sfs|sfs|] eqn:Hclass.
  - apply (Hsub sfs (struct_vals field)) with (ro' := ro); [|exact Hbelow|].
    + intros j q. rewrite visitedAt_below, Hclass. reflexivity.
    + exact (IHs sfs eq_refl _ _ _ _ Hbelow).
  - destruct field as [| | | | | | |[x|]| |];
      try (injection Hbelow as <-; intros j q dotted [t0 [v0 [Hv _]]];
           rewrite visitedAt_below, Hclass in Hv; discriminate).
    apply (Hsub sfs (struct_vals x)) with (ro' := ro); [|exact Hbelow|].
    + intros j q. rewrite visitedAt_below, Hclass. reflexivity.
    + exact (IHp sfs eq_refl _ _ _ _ Hbelow).
  - injection Hbelow as <-. intros j q dotted [t0 [v0 [Hv _]]].
    rewrite visitedAt_below, Hclass in Hv. discriminate.
Qed.

End ValidateBelow.

(** Whenever [validateStruct] returns, it returns what the claim asks:
    no error when no required field that it visits holds zero, and
    otherwise the error that carries the dotted path of the first such
    field in declaration order. *)
Theorem validateStruct_returns (fs : fields) :
  forall (ro : bool) (vs : list value) (prefix : string) (r : option error),
    validateStruct ro fs vs prefix = Returned r ->
    validate_spec fs vs prefix r.
Proof.
  induction fs as [|n tag t rest IHs IHp IHrest] using fields_walk_ind;
    intros ro vs prefix r Hval.
  - injection Hval as <-. intros path dotted [t [v [Hv _]]].
    destruct path; discriminate.
  - destruct vs as [|v vs].
    { injection Hval as <-. intros path dotted. apply missing_at_short. }
    rewrite validateStruct_cons in Hval. cbv zeta in Hval.
    set (ro' := ro || negb (CanSet n)) in Hval.
    set (F := FCons n tag t rest). set (V := v :: vs).
    (* the field itself names the error *)
    assert (Hfirst : forall p d,
      path_before p [0%nat] = true -> ~ missing_at F V prefix p d).
    { intros p d Hp. apply path_before_last in Hp as [->|[j [q [_ Hlt]]]];
        [apply missing_at_nil|lia]. }
    (* or it is not missing, and the answer comes from below or behind *)
    assert (Hafter :
      (forall d, ~ missing_at F V prefix [0%nat] d) ->
      match validate_below ro' n t v prefix with
      | Returned None => validateStruct ro rest vs prefix
      | stop => stop
      end = Returned r ->
      validate_spec F V prefix r).
    { intros Hhead Hres.
      destruct (validate_below ro' n t v prefix) as [[e|]|msg] eqn:Hbelow;
        [|  |discriminate].
      - injection Hres as <-.
        destruct (validate_below_spec n tag t rest IHs IHp v vs prefix ro' _
                    Hbelow) as [j [q [d [Hmiss [He Hbefore]]]]].
        exists (0%nat :: j :: q), d. split; [exact Hmiss|].
        split; [exact He|].
        intros [|[|i] p] d' Hp; [apply missing_at_nil| |discriminate].
        destruct p as [|j' q']; [apply Hhead|].
        exact (Hbefore j' q' d' Hp).
      - pose proof (validate_below_spec n tag t rest IHs IHp v vs prefix ro' _
                      Hbelow) as Hnone.
        pose proof (IHrest ro vs prefix r Hres) as Hrest.
        destruct r as [e|]; simpl in Hrest |- *.
        + destruct Hrest as [[|i q] [d [Hmiss [He Hbefore]]]];
            [exfalso; exact (missing_at_nil _ _ _ _ Hmiss)|].
          exists (S i :: q), d. split; [exact Hmiss|]. split; [exact He|].
          intros [|[|i'] p] d' Hp; [apply missing_at_nil| |].
          * destruct p as [|j' q']; [apply Hhead|apply Hnone].
          * exact (Hbefore (i' :: p) d' Hp).
        + intros [|[|i] p] d; [apply missing_at_nil| |].
          * destruct p as [|j q]; [apply Hhead|apply Hnone].
          * exact (Hrest (i :: p) d). }
    destruct (String.eqb tag "true") eqn:Htag.
    + apply String.eqb_eq in Htag. subst tag.
      destruct (isZeroValue ro' t v) as [[|]|msg] eqn:Hzero; [| |discriminate].
      * injection Hval as <-. exists [0%nat], (buildFieldPath prefix n).
        split; [|split; [reflexivity|exact Hfirst]].
        exists t, v. split; [reflexivity|].
        exact (isZeroValue_holds_zero _ _ _ _ Hzero).
      * apply Hafter; [|exact Hval].
        intros d [t0 [v0 [Hv Hz]]]. injection Hv as _ <- <-.
        rewrite (isZeroValue_holds_zero _ _ _ _ Hzero) in Hz. discriminate.
    + apply Hafter; [|exact Hval].
      intros d [t0 [v0 [Hv _]]]. injection Hv as _ Htrue _ _.
      rewrite Htrue in Htag. discriminate.
Qed.

Lemma required_safe_cons (ro : bool) (fieldName tag : string) (t : ty)
    (rest : fields) :
  required_safe ro (FCons fieldName tag t rest)
  = (negb (String.eqb tag "true")
     || match t with
        | TStruct _ _ => negb (ro || negb (CanSet fieldName)) && comparable t
        | _ => true
        end)
    && match classify t with
       | Nested sfs | Nullable sfs =>
           required_safe (ro || negb (CanSet fieldName)) sfs
       | Leaf => true
       end
    && required_safe ro rest.
Proof.
  simpl. destruct t as [| | | | | | | |e|st fs|]; try reflexivity.
  - destruct e as [| | | | | | | | |st fs|]; reflexivity.
  - destruct st; reflexivity.
Qed.

(** On such a record type [validateStruct] returns. *)
Lemma validateStruct_total (fs : fields) :
  forall (ro : bool) (vs : list value) (prefix : string),
    required_safe ro fs = true ->
    exists r, validateStruct ro fs vs prefix = Returned r.
Proof.
  induction fs as [|n tag t rest IHs IHp IHrest] using fields_walk_ind;
    intros ro vs prefix Hsafe; [exists None; reflexivity|].
  destruct vs as [|v vs]; [exists None; reflexivity|].
  rewrite required_safe_cons in Hsafe.
  apply andb_prop in Hsafe as [Hsafe Hrest].
  apply andb_prop in Hsafe as [Hzero Hbelow].
  rewrite validateStruct_cons. cbv zeta.
  set (ro' := ro || negb (CanSet n)) in *.
  assert (Hafter : exists r,
    match validate_below ro' n t v prefix with
    | Returned None => validateStruct ro rest vs prefix
    | stop => stop
    end = Returned r).
  { assert (Hb : exists rb, validate_below ro' n t v prefix = Returned rb).
    { unfold validate_below.
      destruct (classify t) as [sfs|sfs|] eqn:Hclass.
      - exact (IHs sfs eq_refl ro' _ _ Hbelow).
      - destruct v as [| | | | | | |[x|]| |]; try (exists None; reflexivity).
        exact (IHp sfs eq_refl ro' _ _ Hbelow).
      - exists None. reflexivity. }
    destruct Hb as [[e|] ->]; [exists (Some e); reflexivity|].
    exact (IHrest ro vs prefix Hrest). }
  destruct (String.eqb tag "true"); [|exact Hafter].
  simpl in Hzero.
  assert (Hz : exists b, isZeroValue ro' t v = Returned b).
  { destruct t as [| | | | | | | | |st fs|k]; simpl; eauto.
    - apply andb_prop in Hzero as [Hro Hcmp].
      apply negb_true_iff in Hro. rewrite Hro.
      simpl in Hcmp. rewrite Hcmp. eauto.
    - destruct k; eauto. }
  destruct Hz as [[|] ->]; [eauto|exact Hafter].
Qed.

(** On such a record type [Validate] returns what the claim asks. *)
Corollary Validate_required_safe (fs : fields) (vs : list value) :
  required_safe false fs = true ->
  exists r,
    Validate (StructPointer fs vs) = Returned r /\ validate_spec fs vs "" r.
Proof.
  intros Hsafe.
  destruct (validateStruct_total fs false vs "" Hsafe) as [r Hr].
  exists r. split; [exact Hr|].
  exact (validateStruct_returns fs false vs "" r Hr).
Qed.

(** [TestValidation]: the zero record misses [Server.Host]; with the
    required fields set nothing is missing. *)
Example TestValidation :
  required_safe false TestTypes.TestConfig = true
  /\ Validate
       (StructPointer TestTypes.TestConfig
          [VStruct [VString ""; VInt 0; VBool false];
           VStruct [VString "postgres://localhost/test"; VInt 0; VInt 0; VPtr None];
           VPtr None;
           VStruct [VBool false; VBool false; VSlice None];
           VInt 0])
     = Returned (Some (Errorf "required field is empty: Server.Host"))
  /\ Validate
       (StructPointer TestTypes.TestConfig
          [VStruct [VString "localhost"; VInt 8080; VBool false];
           VStruct [VString "postgres://localhost/test"; VInt 0; VInt 0; VPtr None];
           VPtr None;
           VStruct [VBool false; VBool false; VSlice None];
           VInt 0])
     = Returned None.
Proof. repeat split. Qed.

(** ** The repository's tests, run on the embedding *)

(** [TestLoadFromEnvOnly] *)
Example TestLoadFromEnvOnly :
  Load (P := Scenarios.platform)
    (Sample.env_only
       [("SERVER_HOST", "localhost"); ("SERVER_PORT", "8080");
        ("SERVER_TLS", "true"); ("DATABASE_URL", "postgres://localhost/test");
        ("DATABASE_MAX_CONNS", "10"); ("DATABASE_TIMEOUT", "30s");
        ("FEATURES_ENABLE_METRICS", "true"); ("FEATURES_ENABLE_TRACING", "false");
        ("FEATURES_ALLOWED_I_PS", "192.168.1.1,10.0.0.1,127.0.0.1");
        ("TIMEOUT", "5m")])
    New (StructPointer TestTypes.TestConfig (zeros TestTypes.TestConfig))
  = (StructPointer TestTypes.TestConfig
       [VStruct [VString "localhost"; VInt 8080; VBool true];
        VStruct [VString "postgres://localhost/test"; VInt 10;
                 VInt 30000000000; VPtr None];
        VPtr None;
        VStruct [VBool true; VBool false;
                 VSlice (Some [VString "192.168.1.1"; VString "10.0.0.1";
                               VString "127.0.0.1"])];
        VInt 300000000000],
     None).
Proof. vm_compute. reflexivity. Qed.

(** [TestLoadFromEnvWithPrefix] and [TestLoadFromEnvFunction] *)
Example TestLoadFromEnvWithPrefix :
  LoadFromEnv (P := Scenarios.platform)
    (Sample.env_only
       [("MYAPP_SERVER_HOST", "example.com"); ("MYAPP_SERVER_PORT", "9000");
        ("MYAPP_DATABASE_URL", "mysql://localhost/test")])
    (WithEnvPrefix "MYAPP")
    TestTypes.TestConfig (zeros TestTypes.TestConfig)
  = ([VStruct [VString "example.com"; VInt 9000; VBool false];
      VStruct [VString "mysql://localhost/test"; VInt 0; VInt 0; VPtr None];
      VPtr None;
      VStruct [VBool false; VBool false; VSlice None];
      VInt 0],
     None).
Proof. vm_compute. reflexivity. Qed.

(** [TestInvalidValues] *)
Example TestInvalidValues :
  map (fun vars =>
         Error <$> snd (Load (P := Scenarios.platform) (Sample.env_only vars) New
                          (StructPointer TestTypes.TestConfig
                             (zeros TestTypes.TestConfig))))
    [[("SERVER_TLS", "invalid-bool")];
     [("SERVER_PORT", "not-a-number")];
     [("TIMEOUT", "invalid-duration")];
     [("SERVER_HOST", "localhost"); ("SERVER_PORT", "8080");
      ("SERVER_TLS", "true"); ("TIMEOUT", "30s")]]
  = [Some "failed to load from env: failed to set field TLS: invalid bool value: invalid-bool";
     Some "failed to load from env: failed to set field Port: invalid int value: not-a-number";
     Some "failed to load from env: failed to set field Timeout: invalid duration value: invalid-duration";
     None].
Proof. vm_compute. reflexivity. Qed.

(** * Further properties of the binder *)

(** ** Derived names *)

Lemma append_cons (ch : ascii) (a b : string) :
  String ch a ++ b = String ch (a ++ b).
Proof. reflexivity. Qed.

Lemma append_assoc (a b d : string) : (a ++ b) ++ d = a ++ (b ++ d).
Proof.
  induction a as [|ch a IH]; [reflexivity|].
  rewrite !append_cons, IH. reflexivity.
Qed.









Lemma to_upper_not_lower (ch : ascii) :
  Bytes.is_lower (Bytes.to_upper ch) = false.
Proof. destruct ch as [[] [] [] [] [] [] [] []]; reflexivity. Qed.


Lemma to_upper_idem (ch : ascii) :
  Bytes.to_upper (Bytes.to_upper ch) = Bytes.to_upper ch.
Proof. destruct ch as [[] [] [] [] [] [] [] []]; reflexivity. Qed.




Lemma no_lower_ToUpper (s : string) : no_lower (Bytes.ToUpper s) = true.
Proof.
  induction s as [|ch s IH]; [reflexivity|].
  change (Bytes.ToUpper (String ch s))
    with (String (Bytes.to_upper ch) (Bytes.ToUpper s)).
  simpl. rewrite to_upper_not_lower, IH. reflexivity.
Qed.







Lemma ReplaceAllString_nonempty (re : string -> option Regexp.submatch)
    (s : string) :
  s <> "" -> Regexp.ReplaceAllString re s <> "".
Proof.
  unfold Regexp.ReplaceAllString. destruct s as [|ch s]; [congruence|].
  intros _. simpl. destruct (re (String ch s)) as [[[g1 g2] rest]|].
  - unfold Regexp.expand. destruct g1; discriminate.
  - discriminate.
Qed.

Lemma toSnakeCase_nonempty (str : string) : str <> "" -> toSnakeCase str <> "".
Proof.
  intros Hstr. unfold toSnakeCase. rewrite (is_empty_false _ Hstr).
  pose proof (ReplaceAllString_nonempty Regexp.re2 _
                (ReplaceAllString_nonempty Regexp.re1 _ Hstr)) as Hne.
  destruct (Regexp.ReplaceAllString Regexp.re2
              (Regexp.ReplaceAllString Regexp.re1 str)); [congruence|].
  discriminate.
Qed.

(** What [getEnvName] upper-cases: the derived name behind the optional
    [envPrefix]. *)
Lemma getEnvName_unfold (c : Config) (fieldName prefix : string) :
  getEnvName c fieldName prefix
  = Bytes.ToUpper
      ((if Bytes.is_empty (envPrefix c) then "" else envPrefix c ++ "_")
       ++ buildPrefix prefix fieldName).
Proof.
  unfold getEnvName, buildPrefix.
  destruct (Bytes.is_empty (envPrefix c)); [reflexivity|].
  rewrite append_assoc. reflexivity.
Qed.

(** X2: the variable of a field of a nested record is the name the
    record itself would have as a leaf, an underscore, and the upper-cased
    snake form of the field's name: names compose along the path, as in
    [Database.Credentials.Username] giving
    [DATABASE_CREDENTIALS_USERNAME]. *)
Theorem getEnvName_nested (c : Config) (prefix recordName fieldName : string) :
  recordName <> "" ->
  getEnvName c fieldName (buildPrefix prefix recordName)
  = getEnvName c recordName prefix
    ++ "_" ++ Bytes.ToUpper (toSnakeCase fieldName).
Proof.
  intros Hrecord. rewrite !getEnvName_unfold.
  assert (Hne : Bytes.is_empty (buildPrefix prefix recordName) = false).
  { unfold buildPrefix. pose proof (toSnakeCase_nonempty _ Hrecord) as Hsnake.
    destruct (Bytes.is_empty prefix) eqn:Hp.
    - apply is_empty_false. exact Hsnake.
    - destruct prefix; [discriminate|reflexivity]. }
  unfold buildPrefix at 1. rewrite Hne.
  rewrite <- append_assoc, ToUpper_app. f_equal.
Qed.

Lemma getEnvName_nested_witness :
  getEnvName New "Username" (buildPrefix (buildPrefix "" "Database") "Credentials")
  = "DATABASE_CREDENTIALS_USERNAME".
Proof.
  rewrite (getEnvName_nested New (buildPrefix "" "Database") "Credentials"
             "Username" ltac:(discriminate)).
  vm_compute. reflexivity.
Defined.

Lemma ToUpper_idem (s : string) :
  Bytes.ToUpper (Bytes.ToUpper s) = Bytes.ToUpper s.
Proof.
  induction s as [|ch s IH]; [reflexivity|].
  change (Bytes.ToUpper (String ch s))
    with (String (Bytes.to_upper ch) (Bytes.ToUpper s)).
  change (Bytes.ToUpper (String (Bytes.to_upper ch) (Bytes.ToUpper s)))
    with (String (Bytes.to_upper (Bytes.to_upper ch))
            (Bytes.ToUpper (Bytes.ToUpper s))).
  rewrite to_upper_idem, IH. reflexivity.
Qed.

Lemma is_empty_ToUpper (s : string) :
  Bytes.is_empty (Bytes.ToUpper s) = Bytes.is_empty s.
Proof. destruct s; reflexivity. Qed.

Lemma getEnvName_prefix_upper (c : Config) (p fieldName prefix : string) :
  getEnvName (WithEnvPrefix (Bytes.ToUpper p) c) fieldName prefix
  = getEnvName (WithEnvPrefix p c) fieldName prefix.
Proof.
  rewrite !getEnvName_unfold. simpl. rewrite is_empty_ToUpper.
  destruct (Bytes.is_empty p); [reflexivity|].
  rewrite !ToUpper_app, ToUpper_idem. reflexivity.
Qed.

(** X3: derived names are upper-case throughout, the configured prefix
    included, so the case of [envPrefix] does not matter: a binder with
    prefix [p] and one with the upper-cased [p] load every target
    alike. *)
Theorem envPrefix_case_insensitive {P : Platform} (os : OS) (c : Config)
    (p : string) :
  (forall fieldName prefix,
      no_lower (getEnvName (WithEnvPrefix p c) fieldName prefix) = true)
  /\ (forall cfg,
         Load os (WithEnvPrefix (Bytes.ToUpper p) c) cfg
         = Load os (WithEnvPrefix p c) cfg).
Proof.
  split.
  - intros fieldName prefix. unfold getEnvName. apply no_lower_ToUpper.
  - intros [|fs vs|fs vs|]; try reflexivity.
    apply Load_cong; try reflexivity.
    intros fieldName pre _. unfold envNameOf. simpl.
    rewrite getEnvName_prefix_upper. reflexivity.
Qed.

(** ** The environment step as a whole *)

Section EnvStep.

Context {P : Platform}.
Variable os : OS.
Variable c : Config.

(** X4: [hasAnyEnvVar] answers true exactly when one of the variables of
    the leaves below the record, at any depth and exported or not, has a
    non-empty value. *)
Theorem hasAnyEnvVar_iff (fs : fields) (prefix : string) :
  hasAnyEnvVar os c fs prefix = true
  <-> exists name, In name (leafEnvNames c fs prefix) /\ Getenv os name <> "".
Proof.
  rewrite hasAnyEnvVar_leafEnvNames, existsb_exists.
  split; intros [name [Hin Hne]]; exists name; (split; [exact Hin|]).
  - apply negb_true_iff in Hne. intros Hempty. rewrite Hempty in Hne.
    discriminate.
  - apply negb_true_iff, not_true_is_false. rewrite is_empty_true. exact Hne.
Qed.

Lemma no_variables (fs : fields) (prefix : string) :
  (forall name, In name (leafEnvNames c fs prefix) -> Getenv os name = "") ->
  hasAnyEnvVar os c fs prefix = false.
Proof.
  intros Hnone. apply not_true_is_false.
  rewrite hasAnyEnvVar_leafEnvNames, existsb_exists.
  intros [name [Hin Hne]]. rewrite (Hnone name Hin) in Hne. discriminate.
Qed.

(** X5: when none of the variables of the target's leaves has a
    non-empty value, [Load] does the YAML step and nothing else: the
    target is as that step left it (untouched without a YAML file), and
    the only possible error is that step's error. *)
Theorem Load_without_variables (fs : fields) (vs : list value) :
  have_types fs vs = true ->
  (forall name, In name (leafEnvNames c fs "") -> Getenv os name = "") ->
  Load os c (StructPointer fs vs)
  = (StructPointer fs (fst (yamlStep os c fs vs)),
     Wrapf "failed to load YAML" <$> snd (yamlStep os c fs vs))
  /\ (yamlFile c = "" ->
      Load os c (StructPointer fs vs) = (StructPointer fs vs, None)).
Proof.
  intros Hty Hnone.
  assert (Hload :
    Load os c (StructPointer fs vs)
    = (StructPointer fs (fst (yamlStep os c fs vs)),
       Wrapf "failed to load YAML" <$> snd (yamlStep os c fs vs))).
  { rewrite Load_StructPointer.
    pose proof (yamlStep_typed os c fs vs Hty) as Hty1.
    destruct (yamlStep os c fs vs) as [vs1 [e|]]; [reflexivity|].
    simpl in Hty1 |- *.
    rewrite (processStruct_no_env os c fs vs1 "" Hty1 (no_variables fs "" Hnone)).
    reflexivity. }
  split; [exact Hload|].
  intros Hfile. rewrite Hload. unfold yamlStep. rewrite Hfile. reflexivity.
Qed.

(** X6: [Load] looks at no variable but those of the target's leaves:
    setting or unsetting any other variable does not change its
    result. *)
Theorem Load_ignores_other_variables (fs : fields) (vs : list value)
    (key value : string) :
  ~ In key (leafEnvNames c fs "") ->
  Load (Setenv os key value) c (StructPointer fs vs)
  = Load os c (StructPointer fs vs)
  /\ Load (Unsetenv os key) c (StructPointer fs vs)
     = Load os c (StructPointer fs vs).
Proof.
  intros Hother.
  assert (Hname : forall fieldName pre,
    In (fieldName, pre) (leafFields fs "") -> key <> envNameOf c fieldName pre).
  { intros fieldName pre Hin Heq. apply Hother. unfold leafEnvNames.
    apply in_map_iff. exists (fieldName, pre). split; [congruence|exact Hin]. }
  split; apply Load_cong; try reflexivity; intros fieldName pre Hin;
    unfold Getenv, Setenv, Unsetenv; simpl.
  - rewrite lookup_insert_ne by exact (Hname _ _ Hin). reflexivity.
  - rewrite lookup_delete_ne by exact (Hname _ _ Hin). reflexivity.
Qed.

(** Setting a field again from the same string changes nothing. *)
Lemma setFieldValue_idempotent (t : ty) :
  forall (field field' : value) (raw : string),
    setFieldValue t field raw = (field', None) ->
    setFieldValue t field' raw = (field', None).
Proof.
  induction t as [| |k| |k|k|e IH|n e IH|e IH|st fs|k];
    intros field field' raw Hset; simpl in Hset |- *.
  - exact Hset.
  - destruct (Strconv.ParseBool raw); [exact Hset|discriminate].
  - destruct (Strconv.ParseInt raw); [exact Hset|discriminate].
  - destruct (ParseDuration raw); [exact Hset|discriminate].
  - destruct (Strconv.ParseUint raw); [exact Hset|discriminate].
  - destruct (ParseFloat raw); [exact Hset|discriminate].
  - unfold setSliceValue_with in Hset |- *.
    destruct (setSliceElems (setFieldValue e) (zero e)
                (Strings.Split_comma raw) 0) as [slice [err|]];
      [discriminate|exact Hset].
  - discriminate.
  - destruct (setFieldValue e _ raw) as [pointee' err] eqn:Hpointee.
    injection Hset as <- ->.
    rewrite (IH _ _ _ Hpointee). reflexivity.
  - destruct st.
    + match type of Hset with
      | match ?parsed with _ => _ end = _ =>
          destruct parsed; [exact Hset|discriminate]
      end.
    + injection Hset as <-. reflexivity.
  - discriminate.
Qed.

(** X7: the environment step is idempotent: walking the result of a
    successful walk again, in the same environment, changes nothing and
    succeeds. *)
Theorem loadFromEnv_idempotent (fs : fields) :
  forall (vs vs' : list value) (prefix : string),
    processStruct os c fs vs prefix = (vs', None) ->
    processStruct os c fs vs' prefix = (vs', None).
Proof.
  induction fs as [|n tag t rest IHs IHp IHrest] using fields_walk_ind;
    intros vs vs' prefix Hwalk.
  - destruct vs; injection Hwalk as <-; reflexivity.
  - destruct vs as [|v vs]; [injection Hwalk as <-; reflexivity|].
    rewrite processStruct_cons in Hwalk.
    destruct (if CanSet n then processField os c n t v prefix else (v, None))
      as [v' [e|]] eqn:Hfield; [discriminate|].
    destruct (processStruct os c rest vs prefix) as [vs1 err] eqn:Hrest.
    injection Hwalk as <- ->.
    rewrite processStruct_cons, (IHrest _ _ _ Hrest).
    assert (Hagain :
      (if CanSet n then processField os c n t v' prefix else (v', None))
      = (v', None)).
    { destruct (CanSet n); [|reflexivity].
      unfold processField in Hfield |- *.
      destruct (classify t) as [sfs|sfs|] eqn:Hclass.
      - destruct (processStruct os c sfs (struct_vals v) _) as [svs err]
          eqn:Hsub.
        injection Hfield as <- ->. simpl.
        rewrite (IHs sfs eq_refl _ _ _ Hsub). reflexivity.
      - destruct (hasAnyEnvVar os c sfs (buildPrefix prefix n));
          [|injection Hfield as <-; reflexivity].
        destruct (processStruct os c sfs _ _) as [svs err] eqn:Hsub.
        injection Hfield as <- ->. simpl.
        rewrite (IHp sfs eq_refl _ _ _ Hsub). reflexivity.
      - unfold setFieldFromEnv in Hfield |- *.
        destruct (Bytes.is_empty (Getenv os (envNameOf c n prefix)));
          [injection Hfield as <-; reflexivity|].
        destruct (setFieldValue t v _) as [w [e|]] eqn:Hset;
          [discriminate|].
        injection Hfield as <-.
        rewrite (setFieldValue_idempotent t _ _ _ Hset). reflexivity. }
    rewrite Hagain. reflexivity.
Qed.

(** X8: the walk keeps the shape of a record and never touches a field
    that is not exported, whether it succeeds or fails. *)
Theorem processStruct_frame (fs : fields) :
  forall (vs : list value) (prefix : string),
    length (fst (processStruct os c fs vs prefix)) = length vs
    /\ forall (i : nat) (fieldName tag : string) (t : ty),
         Field fs i = Some (fieldName, tag, t) ->
         CanSet fieldName = false ->
         fst (processStruct os c fs vs prefix) !! i = vs !! i.
Proof.
  induction fs as [|n tag t rest IH]; intros vs prefix.
  - split; [destruct vs; reflexivity|]. intros i fieldName tag t Hf.
    discriminate.
  - destruct vs as [|v vs]; [split; [reflexivity|]; intros; reflexivity|].
    rewrite processStruct_cons. destruct (IH vs prefix) as [Hlen Hskip].
    destruct (if CanSet n then processField os c n t v prefix else (v, None))
      as [v' [e|]] eqn:Hfield.
    + split; [reflexivity|].
      intros [|i] fieldName tag' t' Hf Hset; [|reflexivity].
      injection Hf as -> _ _. rewrite Hset in Hfield.
      injection Hfield as <-. reflexivity.
    + destruct (processStruct os c rest vs prefix) as [vs1 err].
      simpl in Hlen, Hskip |- *. split; [rewrite Hlen; reflexivity|].
      intros [|i] fieldName tag' t' Hf Hset.
      * injection Hf as -> _ _. rewrite Hset in Hfield.
        injection Hfield as <-. reflexivity.
      * exact (Hskip i fieldName tag' t' Hf Hset).
Qed.

End EnvStep.

Lemma Load_without_variables_witness :
  Load (P := Scenarios.platform) Scenarios.full_os Scenarios.from_file
    (StructPointer TestTypes.TestConfig (zeros TestTypes.TestConfig))
  = (StructPointer TestTypes.TestConfig Scenarios.full_doc, None).
Proof.
  rewrite (proj1 (Load_without_variables (P := Scenarios.platform)
                    Scenarios.full_os Scenarios.from_file
                    TestTypes.TestConfig (zeros TestTypes.TestConfig)
                    eq_refl (fun name _ => eq_refl))).
  vm_compute. reflexivity.
Defined.

Lemma Load_ignores_other_variables_witness :
  Load (P := Sample.platform (fun _ => None))
    (Setenv (Sample.env_only [("PORT", "8080")]) "HOME" "/root") New
    (StructPointer TestTypes.ServerConfig (zeros TestTypes.ServerConfig))
  = (StructPointer TestTypes.ServerConfig [VString ""; VInt 8080; VBool false],
     None).
Proof.
  rewrite (proj1 (Load_ignores_other_variables
                    (P := Sample.platform (fun _ => None))
                    (Sample.env_only [("PORT", "8080")]) New
                    TestTypes.ServerConfig (zeros TestTypes.ServerConfig)
                    "HOME" "/root"
                    ltac:(vm_compute; intros [H|[H|[H|[]]]]; discriminate))).
  vm_compute. reflexivity.
Defined.

Lemma loadFromEnv_idempotent_witness :
  processStruct (P := Scenarios.platform) Scenarios.redis_os New
    TestTypes.TestConfig Scenarios.redis_result ""
  = (Scenarios.redis_result, None).
Proof.
  apply (loadFromEnv_idempotent (P := Scenarios.platform) Scenarios.redis_os
           New TestTypes.TestConfig (zeros TestTypes.TestConfig)).
  vm_compute. reflexivity.
Defined.

Lemma processStruct_frame_witness :
  fst (processStruct (P := Sample.platform (fun _ => None))
         (Sample.env_only [("HOST", "h"); ("PORT", "1")]) New
         (FCons "host" "" TString (FCons "Port" "" (TInt Int) FNil))
         [VString "kept"; VInt 0] "") !! 0%nat
  = Some (VString "kept").
Proof.
  exact (proj2 (processStruct_frame (P := Sample.platform (fun _ => None))
                  (Sample.env_only [("HOST", "h"); ("PORT", "1")]) New
                  (FCons "host" "" TString (FCons "Port" "" (TInt Int) FNil))
                  [VString "kept"; VInt 0] "")
           0%nat "host" "" TString eq_refl eq_refl).
Defined.

(** ** Failures of the environment step *)

Section EnvFailure.

Context {P : Platform}.
Variable os : OS.
Variable c : Config.

Lemma valueAt_rest (n tag : string) (t : ty) (rest : fields) (v : value)
    (vs : list value) (i : nat) (path : list nat) :
  valueAt (FCons n tag t rest) (v :: vs) (S i :: path)
  = valueAt rest vs (i :: path).
Proof. reflexivity. Qed.

Lemma fieldAt_rest (n tag : string) (t : ty) (rest : fields)
    (prefix : string) (i : nat) (path : list nat) :
  fieldAt (FCons n tag t rest) prefix (S i :: path)
  = fieldAt rest prefix (i :: path).
Proof. reflexivity. Qed.

Lemma failing_leaf_below (n tag : string) (t : ty) (rest : fields)
    (v v' : value) (vs : list value) (prefix : string) (e : error)
    (sfs : fields) (svs svs' : list value) :
  CanSet n = true ->
  classify t = Nested sfs \/ classify t = Nullable sfs ->
  (forall j q, valueAt (FCons n tag t rest) (v :: vs) (0%nat :: j :: q)
               = valueAt sfs svs (j :: q)
               \/ (valueAt (FCons n tag t rest) (v :: vs) (0%nat :: j :: q) = None
                   /\ svs = zeros sfs)) ->
  (forall j q, valueAt (FCons n tag t rest) (v' :: vs) (0%nat :: j :: q)
               = valueAt sfs svs' (j :: q)) ->
  failing_leaf os c sfs svs svs' (buildPrefix prefix n) e ->
  failing_leaf os c (FCons n tag t rest) (v :: vs) (v' :: vs) prefix e.
Proof.
  intros Hset Hclass Hbefore Hafter
    [path [fieldName [pre [t0 [cause [Hat [Hleaf [Hne [Hcause [He Hv]]]]]]]]]].
  destruct path as [|j q]; [discriminate|].
  assert (Hold : default (zero t0)
                   (valueAt (FCons n tag t rest) (v :: vs) (0%nat :: j :: q))
                 = default (zero t0) (valueAt sfs svs (j :: q))).
  { destruct (Hbefore j q) as [->|[-> ->]]; [reflexivity|].
    destruct (valueAt sfs (zeros sfs) (j :: q)) as [v0|] eqn:Hv0;
      [|reflexivity].
    simpl. symmetry.
    exact (valueAt_zeros (j :: q) sfs _ fieldName pre t0 v0 Hat Hv0). }
  exists (0%nat :: j :: q), fieldName, pre, t0, cause.
  rewrite Hold, Hafter.
  split; [|auto].
  rewrite fieldAt_step. simpl. rewrite Hset.
  destruct Hclass as [-> | ->]; exact Hat.
Qed.

Lemma processStruct_failure (fs : fields) :
  forall (vs vs' : list value) (prefix : string) (e : error),
    processStruct os c fs vs prefix = (vs', Some e) ->
    failing_leaf os c fs vs vs' prefix e.
Proof.
  induction fs as [|n tag t rest IHs IHp IHrest] using fields_walk_ind;
    intros vs vs' prefix e Hwalk.
  - destruct vs; discriminate.
  - destruct vs as [|v vs]; [discriminate|].
    rewrite processStruct_cons in Hwalk.
    destruct (CanSet n) eqn:Hset.
    + destruct (processField os c n t v prefix) as [v' [e0|]] eqn:Hfield.
      * (* the field itself, or a leaf below it, fails *)
        injection Hwalk as <- <-. unfold processField in Hfield.
        destruct (classify t) as [sfs|sfs|] eqn:Hclass.
        -- destruct (processStruct os c sfs (struct_vals v) _) as [svs err]
             eqn:Hsub.
           injection Hfield as <- ->.
           apply (failing_leaf_below n tag t rest v (VStruct svs) vs prefix e0
                    sfs (struct_vals v) svs Hset (or_introl Hclass)).
           ++ intros j q. left. rewrite valueAt_step. simpl. rewrite Hclass.
              reflexivity.
           ++ intros j q. rewrite valueAt_step. simpl. rewrite Hclass.
              reflexivity.
           ++ exact (IHs sfs eq_refl _ _ _ _ Hsub).
        -- destruct (hasAnyEnvVar os c sfs (buildPrefix prefix n));
             [|discriminate].
           remember (match v with
                     | VPtr (Some x) => struct_vals x
                     | _ => zeros sfs
                     end) as pointee eqn:Hpointee.
           destruct (processStruct os c sfs pointee _) as [svs err] eqn:Hsub.
           injection Hfield as <- ->.
           apply (failing_leaf_below n tag t rest v (VPtr (Some (VStruct svs)))
                    vs prefix e0 sfs pointee svs Hset (or_intror Hclass)).
           ++ intros j q. rewrite valueAt_step. simpl. rewrite Hclass.
              subst pointee. destruct v as [| | | | | | |[x|]| |]; auto.
           ++ intros j q. rewrite valueAt_step. simpl. rewrite Hclass.
              reflexivity.
           ++ exact (IHp sfs eq_refl _ _ _ _ Hsub).
        -- unfold setFieldFromEnv in Hfield.
           destruct (Bytes.is_empty (Getenv os (envNameOf c n prefix)))
             eqn:Hempty; [discriminate|].
           destruct (setFieldValue t v _) as [w [cause|]] eqn:Hcoerce;
             [|discriminate].
           injection Hfield as <- <-.
           exists [0%nat], n, prefix, t, cause.
           rewrite fieldAt_last, !valueAt_last. simpl. rewrite Hset, Hcoerce.
           repeat split; try reflexivity; [exact Hclass|].
           intros Hget. rewrite Hget in Hempty. discriminate.
      * (* a later field fails *)
        destruct (processStruct os c rest vs prefix) as [vs1 err] eqn:Hrest.
        injection Hwalk as <- ->.
        destruct (IHrest _ _ _ _ Hrest)
          as [path [fieldName [pre [t0 [cause [Hat Hmore]]]]]].
        destruct path as [|i q]; [discriminate|].
        exists (S i :: q), fieldName, pre, t0, cause.
        rewrite fieldAt_rest, !valueAt_rest. auto.
    + destruct (processStruct os c rest vs prefix) as [vs1 err] eqn:Hrest.
      injection Hwalk as <- ->.
      destruct (IHrest _ _ _ _ Hrest)
        as [path [fieldName [pre [t0 [cause [Hat Hmore]]]]]].
      destruct path as [|i q]; [discriminate|].
      exists (S i :: q), fieldName, pre, t0, cause.
      rewrite fieldAt_rest, !valueAt_rest. auto.
Qed.

(** X9: every error [Load] returns for a pointer to a struct is either
    the wrapped error of the YAML step, the target being as that step
    left it, or the wrapped error of one settable leaf field: its
    variable is set to a non-empty string that the coercion for the
    field's type refuses, the error names the field, and the field holds
    what the failed coercion left (its value from before, or an allocated
    pointer). *)
Theorem Load_failure (fs : fields) (vs : list value) (cfg' : target)
    (e : error) :
  Load os c (StructPointer fs vs) = (cfg', Some e) ->
  (exists cause,
      snd (yamlStep os c fs vs) = Some cause
      /\ e = Wrapf "failed to load YAML" cause
      /\ cfg' = StructPointer fs (fst (yamlStep os c fs vs)))
  \/ (snd (yamlStep os c fs vs) = None
      /\ exists vs' e',
           cfg' = StructPointer fs vs'
           /\ e = Wrapf "failed to load from env" e'
           /\ failing_leaf os c fs (fst (yamlStep os c fs vs)) vs' "" e').
Proof.
  rewrite Load_StructPointer.
  destruct (yamlStep os c fs vs) as [vs1 [cause|]]; simpl.
  - intros [= <- <-]. left. exists cause. auto.
  - destruct (processStruct os c fs vs1 "") as [vs2 [e'|]] eqn:Hwalk;
      [|discriminate].
    intros [= <- <-]. right. split; [reflexivity|].
    exists vs2, e'. split; [reflexivity|]. split; [reflexivity|].
    exact (processStruct_failure fs _ _ _ _ Hwalk).
Qed.

(** *** The first leaf that fails *)

Lemma old_value_below (n tag : string) (t : ty) (rest : fields) (v : value)
    (vs : list value) (sfs : fields) (svs : list value) (pre0 : string)
    (j : nat) (q : list nat) (fieldName pre : string) (t0 : ty) :
  valueAt (FCons n tag t rest) (v :: vs) (0%nat :: j :: q)
  = valueAt sfs svs (j :: q)
  \/ (valueAt (FCons n tag t rest) (v :: vs) (0%nat :: j :: q) = None
      /\ svs = zeros sfs) ->
  fieldAt sfs pre0 (j :: q) = Some (fieldName, pre, t0) ->
  default (zero t0) (valueAt (FCons n tag t rest) (v :: vs) (0%nat :: j :: q))
  = default (zero t0) (valueAt sfs svs (j :: q)).
Proof.
  intros [->|[-> ->]] Hat; [reflexivity|].
  destruct (valueAt sfs (zeros sfs) (j :: q)) as [v0|] eqn:Hv0; [|reflexivity].
  simpl. symmetry.
  exact (valueAt_zeros (j :: q) sfs _ fieldName pre t0 v0 Hat Hv0).
Qed.

Lemma path_before_head (i : nat) (p q : list nat) :
  path_before (i :: p) (0%nat :: q) = true ->
  i = 0%nat /\ path_before p q = true.
Proof.
  simpl. destruct i as [|i]; [auto|discriminate].
Qed.

Lemma first_failing_below (n tag : string) (t : ty) (rest : fields)
    (v : value) (vs : list value) (prefix : string) (e : error)
    (sfs : fields) (svs : list value) :
  CanSet n = true ->
  classify t = Nested sfs \/ classify t = Nullable sfs ->
  (forall j q, valueAt (FCons n tag t rest) (v :: vs) (0%nat :: j :: q)
               = valueAt sfs svs (j :: q)
               \/ (valueAt (FCons n tag t rest) (v :: vs) (0%nat :: j :: q) = None
                   /\ svs = zeros sfs)) ->
  first_failing_leaf os c sfs svs (buildPrefix prefix n) e ->
  first_failing_leaf os c (FCons n tag t rest) (v :: vs) prefix e.
Proof.
  intros Hset Hclass Hbelow
    [path [fieldName [pre [t0 [cause [Hat [Hleaf [Hcause [He Hfirst]]]]]]]]].
  destruct path as [|j q]; [discriminate|].
  assert (Hstep : forall j' q',
    fieldAt (FCons n tag t rest) prefix (0%nat :: j' :: q')
    = fieldAt sfs (buildPrefix prefix n) (j' :: q')).
  { intros j' q'. rewrite fieldAt_step. simpl. rewrite Hset.
    destruct Hclass as [-> | ->]; reflexivity. }
  exists (0%nat :: j :: q), fieldName, pre, t0, cause.
  rewrite (old_value_below n tag t rest v vs sfs svs _ j q fieldName pre t0
             (Hbelow j q) Hat).
  rewrite Hstep. repeat split; try assumption.
  intros [|i' p'] Hbefore fieldName' pre' t' Hat' Hleaf'; [discriminate|].
  apply path_before_head in Hbefore as [-> Hbefore].
  destruct p' as [|j' q'].
  - rewrite fieldAt_last in Hat'. simpl in Hat'. rewrite Hset in Hat'.
    injection Hat' as _ _ <-.
    destruct Hclass as [Hclass|Hclass]; rewrite Hclass in Hleaf'; discriminate.
  - rewrite Hstep in Hat'.
    rewrite (old_value_below n tag t rest v vs sfs svs _ j' q' fieldName' pre' t'
               (Hbelow j' q') Hat').
    exact (Hfirst (j' :: q') Hbefore fieldName' pre' t' Hat' Hleaf').
Qed.

(** The leaves below a field that the walk has passed. *)
Lemma processField_accepted (n tag : string) (t : ty) (rest : fields)
    (v v' : value) (vs : list value) (prefix : string) (q : list nat) :
  has_type t v = true ->
  processField os c n t v prefix = (v', None) ->
  leaf_accepted os c (FCons n tag t rest) (v :: vs) prefix (0%nat :: q).
Proof.
  intros Hty Hfield fieldName pre t0 Hat Hleaf.
  destruct (CanSet n) eqn:Hset;
    [|destruct q; [rewrite fieldAt_last in Hat|rewrite fieldAt_step in Hat];
      simpl in Hat; rewrite Hset in Hat; discriminate].
  assert (Hwalk :
    processStruct os c (FCons n tag t FNil) [v] prefix = ([v'], None)).
  { rewrite processStruct_cons, Hset, Hfield. reflexivity. }
  assert (Hty1 : have_types (FCons n tag t FNil) [v] = true).
  { simpl. rewrite Hty. reflexivity. }
  assert (Hat1 :
    fieldAt (FCons n tag t FNil) prefix (0%nat :: q)
    = Some (fieldName, pre, t0)).
  { destruct q; [rewrite fieldAt_last in Hat |- *
                |rewrite fieldAt_step in Hat |- *]; exact Hat. }
  assert (Hval :
    valueAt (FCons n tag t rest) (v :: vs) (0%nat :: q)
    = valueAt (FCons n tag t FNil) [v] (0%nat :: q)).
  { destruct q; [rewrite !valueAt_last|rewrite !valueAt_step]; reflexivity. }
  rewrite Hval.
  destruct (processStruct_at os c (0%nat :: q) _ _ _ prefix fieldName pre t0
              Hty1 Hwalk Hat1) as [[_ [_ Henv]]|[_ Hok]].
  - left. unfold fieldHasEnv in Henv. rewrite Hleaf in Henv.
    apply negb_false_iff in Henv. apply is_empty_true. exact Henv.
  - unfold processField in Hok. rewrite Hleaf in Hok.
    unfold setFieldFromEnv in Hok.
    destruct (Bytes.is_empty (Getenv os (envNameOf c fieldName pre)))
      eqn:Hempty; [left; apply is_empty_true; exact Hempty|].
    right.
    destruct (setFieldValue t0 _ (Getenv os (envNameOf c fieldName pre)))
      as [w [cause|]]; [discriminate|reflexivity].
Qed.

Lemma first_failing_rest (n tag : string) (t : ty) (rest : fields)
    (v : value) (vs : list value) (prefix : string) (e : error) :
  (forall q, leaf_accepted os c (FCons n tag t rest) (v :: vs) prefix
               (0%nat :: q)) ->
  first_failing_leaf os c rest vs prefix e ->
  first_failing_leaf os c (FCons n tag t rest) (v :: vs) prefix e.
Proof.
  intros Hhead
    [path [fieldName [pre [t0 [cause [Hat [Hleaf [Hcause [He Hfirst]]]]]]]]].
  destruct path as [|i q]; [discriminate|].
  exists (S i :: q), fieldName, pre, t0, cause.
  rewrite fieldAt_rest, valueAt_rest. repeat split; try assumption.
  intros [|[|i'] p'] Hbefore; [intros ? ? ? Habs; discriminate|apply Hhead|].
  intros fieldName' pre' t' Hat' Hleaf'.
  rewrite fieldAt_rest in Hat'. rewrite valueAt_rest.
  exact (Hfirst (i' :: p') Hbefore fieldName' pre' t' Hat' Hleaf').
Qed.

Lemma processStruct_fails_first (fs : fields) :
  forall (vs vs' : list value) (prefix : string) (e : error),
    have_types fs vs = true ->
    processStruct os c fs vs prefix = (vs', Some e) ->
    first_failing_leaf os c fs vs prefix e.
Proof.
  induction fs as [|n tag t rest IHs IHp IHrest] using fields_walk_ind;
    intros vs vs' prefix e Hty Hwalk.
  - destruct vs; discriminate.
  - destruct vs as [|v vs]; [discriminate|].
    simpl in Hty. apply andb_prop in Hty as [Hv Hvs].
    rewrite processStruct_cons in Hwalk.
    destruct (CanSet n) eqn:Hset.
    + destruct (processField os c n t v prefix) as [v' [e0|]] eqn:Hfield.
      * injection Hwalk as <- <-. unfold processField in Hfield.
        destruct (classify t) as [sfs|sfs|] eqn:Hclass.
        -- rewrite (classify_Nested _ _ Hclass) in Hv.
           apply has_type_Nested in Hv as [svs0 [-> Hsvs]].
           simpl in Hfield.
           destruct (processStruct os c sfs svs0 _) as [svs err] eqn:Hsub.
           injection Hfield as <- ->.
           apply (first_failing_below n tag t rest (VStruct svs0) vs prefix e0
                    sfs svs0 Hset (or_introl Hclass)).
           ++ intros j q. left. rewrite valueAt_step. simpl. rewrite Hclass.
              reflexivity.
           ++ exact (IHs sfs eq_refl _ _ _ _ Hsvs Hsub).
        -- destruct (hasAnyEnvVar os c sfs (buildPrefix prefix n));
             [|discriminate].
           destruct (classify_Nullable _ _ Hclass) as [b Ht].
           rewrite Ht in Hv.
           apply has_type_Nullable in Hv as [->|[svs0 [-> Hsvs]]].
           ++ destruct (processStruct os c sfs (zeros sfs) _) as [svs err]
                eqn:Hsub.
              injection Hfield as <- ->.
              apply (first_failing_below n tag t rest (VPtr None) vs prefix e0
                       sfs (zeros sfs) Hset (or_intror Hclass)).
              ** intros j q. right. rewrite valueAt_step. simpl.
                 rewrite Hclass. auto.
              ** exact (IHp sfs eq_refl _ _ _ _ (have_types_zeros sfs) Hsub).
           ++ simpl in Hfield.
              destruct (processStruct os c sfs svs0 _) as [svs err] eqn:Hsub.
              injection Hfield as <- ->.
              apply (first_failing_below n tag t rest
                       (VPtr (Some (VStruct svs0))) vs prefix e0
                       sfs svs0 Hset (or_intror Hclass)).
              ** intros j q. left. rewrite valueAt_step. simpl.
                 rewrite Hclass. reflexivity.
              ** exact (IHp sfs eq_refl _ _ _ _ Hsvs Hsub).
        -- unfold setFieldFromEnv in Hfield.
           destruct (Bytes.is_empty (Getenv os (envNameOf c n prefix)));
             [discriminate|].
           destruct (setFieldValue t v _) as [w [cause|]] eqn:Hcoerce;
             [|discriminate].
           injection Hfield as <- <-.
           exists [0%nat], n, prefix, t, cause.
           rewrite fieldAt_last, valueAt_last. simpl. rewrite Hset, Hcoerce.
           repeat split; try reflexivity; [exact Hclass|].
           intros path' Hbefore.
           apply path_before_last in Hbefore as [->|[j [q [_ Hlt]]]]; [|lia].
           intros ? ? ? Habs. discriminate.
      * destruct (processStruct os c rest vs prefix) as [vs1 err] eqn:Hrest.
        injection Hwalk as <- ->.
        apply first_failing_rest.
        -- intros q. exact (processField_accepted n tag t rest v v' vs prefix q
                              Hv Hfield).
        -- exact (IHrest _ _ _ _ Hvs Hrest).
    + destruct (processStruct os c rest vs prefix) as [vs1 err] eqn:Hrest.
      injection Hwalk as <- ->.
      apply first_failing_rest.
      * intros q fieldName pre t0 Hat.
        destruct q; [rewrite fieldAt_last in Hat|rewrite fieldAt_step in Hat];
          simpl in Hat; rewrite Hset in Hat; discriminate.
      * exact (IHrest _ _ _ _ Hvs Hrest).
Qed.

(** X14: when the environment step of [Load] fails, the error is that of
    the first leaf, in declaration order, whose variable holds a string
    that the coercion of its type refuses: every leaf before it either has
    no variable set or was coerced without an error. *)
Theorem Load_fails_at_first_leaf (fs : fields) (vs : list value)
    (cfg' : target) (e : error) :
  have_types fs vs = true ->
  snd (yamlStep os c fs vs) = None ->
  Load os c (StructPointer fs vs) = (cfg', Some e) ->
  exists e',
    e = Wrapf "failed to load from env" e'
    /\ first_failing_leaf os c fs (fst (yamlStep os c fs vs)) "" e'.
Proof.
  intros Hty Hyaml. rewrite Load_StructPointer.
  pose proof (yamlStep_typed os c fs vs Hty) as Hty1.
  destruct (yamlStep os c fs vs) as [vs1 [cause|]]; [discriminate|].
  simpl in Hty1 |- *.
  destruct (processStruct os c fs vs1 "") as [vs2 [e'|]] eqn:Hwalk;
    [|discriminate].
  intros [= <- <-]. exists e'. split; [reflexivity|].
  exact (processStruct_fails_first fs _ _ _ _ Hty1 Hwalk).
Qed.

(** *** When the walk succeeds *)

Lemma processStruct_accepted (fs : fields) (vs vs' : list value)
    (prefix : string) (path : list nat) :
  have_types fs vs = true ->
  processStruct os c fs vs prefix = (vs', None) ->
  leaf_accepted os c fs vs prefix path.
Proof.
  intros Hty Hwalk fieldName pre t Hat Hleaf.
  destruct (processStruct_at os c path fs vs vs' prefix fieldName pre t
              Hty Hwalk Hat) as [[_ [_ Henv]]|[_ Hok]].
  - left. unfold fieldHasEnv in Henv. rewrite Hleaf in Henv.
    apply negb_false_iff in Henv. apply is_empty_true. exact Henv.
  - unfold processField in Hok. rewrite Hleaf in Hok.
    unfold setFieldFromEnv in Hok.
    destruct (Bytes.is_empty (Getenv os (envNameOf c fieldName pre)))
      eqn:Hempty; [left; apply is_empty_true; exact Hempty|].
    right.
    destruct (setFieldValue t _ (Getenv os (envNameOf c fieldName pre)))
      as [w [cause|]]; [discriminate|reflexivity].
Qed.

(** X15: after a YAML step without error, [Load] succeeds exactly when
    every settable leaf of the target, at any depth, either has no
    variable set or has one that the coercion of its type accepts. *)
Theorem Load_succeeds_iff (fs : fields) (vs : list value) :
  have_types fs vs = true ->
  snd (yamlStep os c fs vs) = None ->
  snd (Load os c (StructPointer fs vs)) = None
  <-> forall path,
        leaf_accepted os c fs (fst (yamlStep os c fs vs)) "" path.
Proof.
  intros Hty Hyaml. rewrite Load_StructPointer.
  pose proof (yamlStep_typed os c fs vs Hty) as Hty1.
  destruct (yamlStep os c fs vs) as [vs1 [cause|]]; [discriminate|].
  simpl in Hty1 |- *.
  destruct (processStruct os c fs vs1 "") as [vs2 [e'|]] eqn:Hwalk; simpl.
  - split; [discriminate|]. intros Hall. exfalso.
    destruct (processStruct_failure fs _ _ _ _ Hwalk)
      as [path [fieldName [pre [t [cause [Hat [Hleaf [Hne [Hcause _]]]]]]]]].
    destruct (Hall path fieldName pre t Hat Hleaf) as [Hempty|Hok];
      [exact (Hne Hempty)|].
    rewrite Hok in Hcause. discriminate.
  - split; [|reflexivity]. intros _ path.
    exact (processStruct_accepted fs vs1 vs2 "" path Hty1 Hwalk).
Qed.

(** X16: a settable leaf whose kind [setFieldValue] has no case for (an
    array, a map, a channel, a function, an interface, a complex number,
    [uintptr], an unsafe pointer) cannot be bound: as soon as its variable
    has a non-empty value, [Load] fails. *)
Theorem Load_unsupported_leaf (fs : fields) (vs : list value)
    (path : list nat) (fieldName pre : string) (t : ty) :
  have_types fs vs = true ->
  fieldAt fs "" path = Some (fieldName, pre, t) ->
  match t with TArray _ _ | TOther _ => True | _ => False end ->
  Getenv os (envNameOf c fieldName pre) <> "" ->
  snd (Load os c (StructPointer fs vs)) <> None.
Proof.
  intros Hty Hat Hkind Hne. rewrite Load_StructPointer.
  pose proof (yamlStep_typed os c fs vs Hty) as Hty1.
  destruct (yamlStep os c fs vs) as [vs1 [cause|]]; [discriminate|].
  simpl in Hty1.
  destruct (processStruct os c fs vs1 "") as [vs2 [e'|]] eqn:Hwalk;
    [discriminate|].
  exfalso.
  assert (Hleaf : classify t = Leaf) by (destruct t; easy).
  destruct (processStruct_accepted fs vs1 vs2 "" path Hty1 Hwalk
              fieldName pre t Hat Hleaf) as [Hempty|Hok];
    [exact (Hne Hempty)|].
  destruct t; try exact Hkind; discriminate.
Qed.

End EnvFailure.

Lemma Load_failure_witness :
  exists e',
    failing_leaf (P := Sample.platform (fun _ => None))
      (Sample.env_only [("HOST", "h"); ("PORT", "abc"); ("TLS", "maybe")]) New
      TestTypes.ServerConfig (zeros TestTypes.ServerConfig)
      [VString "h"; VInt 0; VBool false] "" e'.
Proof.
  destruct (Load_failure (P := Sample.platform (fun _ => None))
              (Sample.env_only [("HOST", "h"); ("PORT", "abc"); ("TLS", "maybe")])
              New TestTypes.ServerConfig (zeros TestTypes.ServerConfig)
              (StructPointer TestTypes.ServerConfig
                 [VString "h"; VInt 0; VBool false])
              (Wrapf "failed to load from env"
                 (Wrapf "failed to set field Port"
                    (Errorf "invalid int value: abc")))
              ltac:(vm_compute; reflexivity))
    as [[cause [Hyaml _]]|[_ [vs' [e' [Hcfg [_ Hleaf]]]]]].
  - discriminate Hyaml.
  - injection Hcfg as <-. exists e'. exact Hleaf.
Defined.

Lemma Load_fails_at_first_leaf_witness :
  exists e',
    first_failing_leaf (P := Sample.platform (fun _ => None))
      (Sample.env_only [("HOST", "h"); ("PORT", "abc"); ("TLS", "maybe")]) New
      TestTypes.ServerConfig (zeros TestTypes.ServerConfig) "" e'.
Proof.
  destruct (Load_fails_at_first_leaf (P := Sample.platform (fun _ => None))
              (Sample.env_only [("HOST", "h"); ("PORT", "abc"); ("TLS", "maybe")])
              New TestTypes.ServerConfig (zeros TestTypes.ServerConfig)
              (StructPointer TestTypes.ServerConfig
                 [VString "h"; VInt 0; VBool false])
              (Wrapf "failed to load from env"
                 (Wrapf "failed to set field Port"
                    (Errorf "invalid int value: abc")))
              eq_refl eq_refl ltac:(vm_compute; reflexivity))
    as [e' [_ Hfirst]].
  exists e'. exact Hfirst.
Defined.

Lemma Load_succeeds_iff_witness :
  leaf_accepted (P := Scenarios.platform) Scenarios.redis_os New
    TestTypes.TestConfig (zeros TestTypes.TestConfig) "" [2; 1]%nat.
Proof.
  apply (proj1 (Load_succeeds_iff (P := Scenarios.platform)
                  Scenarios.redis_os New
                  TestTypes.TestConfig (zeros TestTypes.TestConfig)
                  eq_refl eq_refl)).
  vm_compute. reflexivity.
Defined.

Lemma Load_unsupported_leaf_witness :
  snd (Load (P := Sample.platform (fun _ => None))
         (Sample.env_only [("LIMITS", "1,2")]) New
         (StructPointer (FCons "Limits" "" (TArray 2 (TInt Int)) FNil)
            [VArray [VInt 0; VInt 0]]))
  <> None.
Proof.
  apply (Load_unsupported_leaf (P := Sample.platform (fun _ => None))
           (Sample.env_only [("LIMITS", "1,2")]) New
           (FCons "Limits" "" (TArray 2 (TInt Int)) FNil)
           [VArray [VInt 0; VInt 0]] [0%nat] "Limits" "" (TArray 2 (TInt Int)));
    [reflexivity|reflexivity|exact I|vm_compute; discriminate].
Defined.

(** ** Types are kept *)

Lemma has_type_zero (t : ty) : has_type t (zero t) = true.
Proof.
  apply (ty_fields_ind (fun t => has_type t (zero t) = true)
           (fun fs => have_types fs (zeros fs) = true));
    try reflexivity; simpl.
  - intros k. destruct k; reflexivity.
  - intros k. destruct k; reflexivity.
  - intros n e IH. rewrite repeat_length, Nat.eqb_refl. simpl.
    induction n as [|n IHn]; simpl; [reflexivity|]. rewrite IH. exact IHn.
  - auto.
  - intros _ _ t0 Ht rest Hrest. rewrite Ht. exact Hrest.
Qed.

Lemma uint_bits_pos (k : uintKind) : 0 < uint_bits k.
Proof. destruct k; reflexivity. Qed.

Lemma wrap_uint_range (bits n : Z) :
  0 < bits -> uint_in_range bits (wrap_uint bits n) = true.
Proof.
  intros Hbits. unfold uint_in_range, wrap_uint.
  assert (Hpos : 0 < 2 ^ bits) by (apply Z.pow_pos_nonneg; lia).
  pose proof (Z.mod_pos_bound n (2 ^ bits) Hpos).
  apply andb_true_intro. split; [apply Z.leb_le | apply Z.ltb_lt]; lia.
Qed.

Section Typed.

Context {P : Platform}.
Variable os : OS.
Variable c : Config.
Hypothesis HP : platform_typed P.

Lemma parse_time_typed (layouts : list string) (s : string) (v : value) :
  parse_time layouts s = Some v -> has_type TTime v = true.
Proof.
  destruct HP as [_ [_ [_ Htime]]].
  induction layouts as [|layout layouts IH]; [discriminate|]. simpl.
  destruct (time_Parse layout s) as [w|] eqn:Hparse; [|exact IH].
  intros [= <-]. exact (Htime _ _ _ Hparse).
Qed.

Lemma setSliceElems_typed (set : value -> string -> value * option error)
    (e : ty) (z : value) (parts : list string) :
  (forall part, has_type e (fst (set z part)) = true) ->
  forall i, forallb (has_type e) (fst (setSliceElems set z parts i)) = true.
Proof.
  intros Hset. induction parts as [|part parts IH]; intros i; [reflexivity|].
  simpl. specialize (Hset (Strings.TrimSpace part)).
  destruct (set z (Strings.TrimSpace part)) as [elem [err|]]; [reflexivity|].
  specialize (IH (S i)).
  destruct (setSliceElems set z parts (S i)) as [elems err'].
  simpl in *. rewrite Hset, IH. reflexivity.
Qed.

(** A coercion leaves a value of the field's type, also when it fails. *)
Lemma setFieldValue_typed (t : ty) :
  times_ok t ->
  forall (field : value) (raw : string),
    has_type t field = true ->
    has_type t (fst (setFieldValue t field raw)) = true.
Proof.
  destruct HP as [Hdur [Hfloat [Hf32 _]]].
  induction t as [| |k| |k|k|e IH|n e IH|e IH|st fs|k];
    intros Hok field raw Hty; try (destruct st; [|exact Hty]);
    [simpl ..| |simpl].
  - reflexivity.
  - destruct (Strconv.ParseBool raw); [reflexivity|exact Hty].
  - destruct (Strconv.ParseInt raw); [|exact Hty].
    simpl. apply wrap_int_range, int_bits_pos.
  - destruct (ParseDuration raw) as [d|] eqn:Hd; [|exact Hty].
    exact (Hdur _ _ Hd).
  - destruct (Strconv.ParseUint raw); [|exact Hty].
    simpl. apply wrap_uint_range, uint_bits_pos.
  - destruct (ParseFloat raw) as [bits|] eqn:Hbits; [|exact Hty].
    simpl. destruct k; [apply Hf32|]; exact (Hfloat _ _ Hbits).
  - unfold setSliceValue_with.
    pose proof (setSliceElems_typed (setFieldValue e) e (zero e)
                  (Strings.Split_comma raw)
                  (fun part => IH Hok (zero e) part (has_type_zero e)) 0%nat)
      as Helems.
    destruct (setSliceElems (setFieldValue e) (zero e)
                (Strings.Split_comma raw) 0) as [slice [err|]];
      [exact Hty|exact Helems].
  - exact Hty.
  - assert (Hpointee : has_type e match field with
                                  | VPtr (Some x) => x
                                  | _ => zero e
                                  end = true).
    { destruct field as [| | | | | | |[x|]| |]; try apply has_type_zero.
      exact Hty. }
    specialize (IH Hok _ raw Hpointee).
    destruct (setFieldValue e _ raw) as [pointee' err]. exact IH.
  - simpl in Hok. subst fs.
    change (setFieldValue (TStruct true Time_fields) field raw)
      with (match parse_time time_layouts raw with
            | Some timeVal => (timeVal, None)
            | None => (field, Some (Errorf ("invalid time value: " ++ raw)))
            end).
    destruct (parse_time time_layouts raw) as [v|] eqn:Hparse; [|exact Hty].
    exact (parse_time_typed _ _ _ Hparse).
  - exact Hty.
Qed.

Lemma processStruct_typed (fs : fields) :
  fields_times_ok fs ->
  forall (vs : list value) (prefix : string),
    have_types fs vs = true ->
    have_types fs (fst (processStruct os c fs vs prefix)) = true.
Proof.
  induction fs as [|n tag t rest IHs IHp IHrest] using fields_walk_ind;
    intros Hok vs prefix Hty.
  - destruct vs; [reflexivity|discriminate].
  - destruct vs as [|v vs]; [discriminate|].
    destruct Hok as [Hokt Hokrest].
    simpl in Hty. apply andb_prop in Hty as [Hv Hvs].
    rewrite processStruct_cons.
    assert (Hfield : has_type t
      (fst (if CanSet n then processField os c n t v prefix else (v, None)))
      = true).
    { destruct (CanSet n); [|exact Hv]. unfold processField.
      destruct (classify t) as [sfs|sfs|] eqn:Hclass.
      - pose proof (classify_Nested _ _ Hclass) as ->.
        apply has_type_Nested in Hv as [svs [-> Hsvs]].
        pose proof (IHs sfs eq_refl Hokt svs (buildPrefix prefix n) Hsvs) as IH.
        simpl. destruct (processStruct os c sfs svs _) as [svs' err].
        exact IH.
      - destruct (classify_Nullable _ _ Hclass) as [b ->].
        destruct (hasAnyEnvVar os c sfs (buildPrefix prefix n)); [|exact Hv].
        assert (Hoks : fields_times_ok sfs).
        { destruct b; [|exact Hokt]. simpl in Hokt. subst sfs.
          repeat split. }
        assert (Hpointee : have_types sfs match v with
                                          | VPtr (Some x) => struct_vals x
                                          | _ => zeros sfs
                                          end = true).
        { apply has_type_Nullable in Hv as [->|[svs [-> Hsvs]]];
            [apply have_types_zeros|exact Hsvs]. }
        pose proof (IHp sfs eq_refl Hoks _ (buildPrefix prefix n) Hpointee)
          as IH.
        destruct (processStruct os c sfs _ _) as [svs' err]. exact IH.
      - unfold setFieldFromEnv.
        destruct (Bytes.is_empty (Getenv os (envNameOf c n prefix)));
          [exact Hv|].
        pose proof (setFieldValue_typed t Hokt v
                      (Getenv os (envNameOf c n prefix)) Hv) as Hset.
        destruct (setFieldValue t v _) as [w err]. exact Hset. }
    destruct (if CanSet n then processField os c n t v prefix else (v, None))
      as [v' [e|]]; simpl in Hfield |- *.
    + rewrite Hfield, Hvs. reflexivity.
    + pose proof (IHrest Hokrest vs prefix Hvs) as IH.
      destruct (processStruct os c rest vs prefix) as [vs1 err].
      simpl in IH |- *. rewrite Hfield, IH. reflexivity.
Qed.

(** X10: [Load] keeps the target well typed, whether it succeeds or
    fails: every field holds a value of its own type, an integer within
    the range of its width, a slice elements of its element type. *)
Theorem Load_typed (fs : fields) (vs : list value) :
  fields_times_ok fs ->
  have_types fs vs = true ->
  exists vs',
    fst (Load os c (StructPointer fs vs)) = StructPointer fs vs'
    /\ have_types fs vs' = true.
Proof.
  intros Hok Hty. rewrite Load_StructPointer.
  pose proof (yamlStep_typed os c fs vs Hty) as Hty1.
  destruct (yamlStep os c fs vs) as [vs1 [e|]]; simpl in Hty1.
  - exists vs1. auto.
  - pose proof (processStruct_typed fs Hok vs1 "" Hty1) as Hty2.
    destruct (processStruct os c fs vs1 "") as [vs2 err].
    exists vs2. auto.
Qed.

End Typed.

(** ** Integers within range, zero values, files *)


Lemma digits_nonneg (s : string) :
  forall acc n, 0 <= acc -> Strconv.digits acc s = Some n -> 0 <= n.
Proof.
  induction s as [|ch s IH]; intros acc n Hacc; simpl.
  - intros [= <-]. exact Hacc.
  - destruct (Bytes.is_digit ch) eqn:Hdigit; [|discriminate].
    apply IH. unfold Bytes.is_digit, Bytes.in_range in Hdigit.
    apply andb_prop in Hdigit as [Hlo _]. apply N.leb_le in Hlo. lia.
Qed.

Lemma digits1_nonneg (s : string) (n : Z) :
  Strconv.digits1 s = Some n -> 0 <= n.
Proof.
  unfold Strconv.digits1. destruct (Bytes.is_empty s); [discriminate|].
  apply digits_nonneg. lia.
Qed.





(** X12: what [isZeroValue] takes for zero.  For strings, booleans,
    integers, durations, slices, pointers, maps, channels, functions and
    interfaces it answers true exactly on the zero value of the type; for
    floats on plus and minus zero; for arrays, complex numbers, [uintptr]
    and unsafe pointers it always answers false, so such a field is never
    reported as missing; for a struct it panics when the value was
    reached through an unexported field or the type is not comparable. *)
Theorem isZeroValue_cases (ro : bool) (t : ty) (v : value) :
  has_type t v = true ->
  match t with
  | TString | TBool | TInt _ | TDuration | TUint _ | TSlice _ | TPtr _
  | TOther Map | TOther Interface | TOther Chan | TOther Func =>
      exists b, isZeroValue ro t v = Returned b /\ (b = true <-> v = zero t)
  | TFloat _ =>
      exists b,
        isZeroValue ro t v = Returned b
        /\ (b = true <-> v = VFloat 0 \/ v = VFloat (2 ^ 63))
  | TArray _ _ | TOther _ => isZeroValue ro t v = Returned false
  | TStruct _ _ =>
      (exists b, isZeroValue ro t v = Returned b)
      <-> ro = false /\ comparable t = true
  end.
Proof.
  intros Hty. pose proof (holds_zero_zero t v Hty) as Hzero.
  unfold holds_zero in Hzero.
  destruct t as [| | | | | | | | |st fs|k]; simpl in Hzero |- *;
    try (eexists; split; [reflexivity|exact Hzero]);
    try reflexivity.
  - destruct ro; simpl.
    + split; [intros [b Hb]; discriminate|intros [Hro _]; discriminate].
    + destruct (comparable_fields fs).
      * split; [auto|]. intros _. eexists. reflexivity.
      * split; [intros [b Hb]; discriminate|intros [_ Hc]; discriminate].
  - destruct k; simpl in Hzero |- *;
      try reflexivity; eexists; (split; [reflexivity|exact Hzero]).
Qed.

Lemma isZeroValue_cases_witness :
  (exists b,
      isZeroValue false (TSlice TString) (VSlice (Some [])) = Returned b
      /\ (b = true <-> VSlice (Some []) = zero (TSlice TString)))
  /\ isZeroValue false (TArray 2 (TInt Int)) (VArray [VInt 0; VInt 0])
     = Returned false.
Proof.
  split.
  - apply (isZeroValue_cases false (TSlice TString) (VSlice (Some []))).
    reflexivity.
  - apply (isZeroValue_cases false (TArray 2 (TInt Int))
             (VArray [VInt 0; VInt 0])).
    reflexivity.
Defined.

(** X13: [LoadFromEnv] does not read the YAML file: a YAML path given
    among its options and the contents of the file system have no
    influence on its result. *)
Theorem LoadFromEnv_ignores_files {P : Platform} (os : OS)
    (opts : Config -> Config) (file : string) (read : string -> ReadResult)
    (fs : fields) (vs : list value) :
  LoadFromEnv {| environ := environ os; ReadFile := read |}
    (fun c => WithYAMLFile file (opts c)) fs vs
  = LoadFromEnv os opts fs vs.
Proof.
  unfold LoadFromEnv, loadFromEnv.
  apply (walk_cong _ os (WithYAMLFile file (opts New)) (opts New) fs "").
  intros fieldName pre _. reflexivity.
Qed.

(** X18: a YAML file that is there but cannot be read makes [Load] fail
    before anything is bound: the target is untouched, the environment is
    not consulted, and two [Unwrap] steps on the error reach the error of
    the read. *)
Theorem Load_read_error {P : Platform} (os : OS) (c : Config) (fs : fields)
    (vs : list value) (err : error) :
  yamlFile c <> "" ->
  ReadFile os (yamlFile c) = ReadError err ->
  forall env,
    Load {| environ := env; ReadFile := ReadFile os |} c (StructPointer fs vs)
    = (StructPointer fs vs,
       Some (Wrapf "failed to load YAML" (Wrapf "failed to read YAML file" err)))
    /\ Unwrap (Wrapf "failed to load YAML" (Wrapf "failed to read YAML file" err))
       ≫= Unwrap = Some err.
Proof.
  intros Hfile Hread env. split; [|reflexivity].
  apply is_empty_false in Hfile.
  unfold Load, loadFromYAML. simpl. rewrite Hfile, Hread. reflexivity.
Qed.

Lemma Load_read_error_witness :
  Load (P := Sample.platform (fun _ => None))
    {| environ := list_to_map [("PORT", "8080")];
       ReadFile := fun _ => ReadError (Errorf "permission denied") |}
    (WithYAMLFile "config.yaml" New)
    (StructPointer TestTypes.ServerConfig (zeros TestTypes.ServerConfig))
  = (StructPointer TestTypes.ServerConfig (zeros TestTypes.ServerConfig),
     Some (Wrapf "failed to load YAML"
             (Wrapf "failed to read YAML file" (Errorf "permission denied")))).
Proof.
  apply (Load_read_error (P := Sample.platform (fun _ => None))
           {| environ := ∅;
              ReadFile := fun _ => ReadError (Errorf "permission denied") |}
           (WithYAMLFile "config.yaml" New)
           TestTypes.ServerConfig (zeros TestTypes.ServerConfig)
           (Errorf "permission denied")
           ltac:(discriminate) eq_refl (list_to_map [("PORT", "8080")])).
Defined.

(** ** Validate, whenever it returns *)



(** ** The sample platform is typed *)

Lemma sample_platform_typed (decode : string -> option (list value)) :
  platform_typed (Sample.platform decode).
Proof.
  split; [|split; [|split]]; simpl.
  - intros s d. unfold Sample.ParseDuration1.
    destruct (Sample.span_digits s) as [ds u].
    destruct (Strconv.digits1 ds) as [n|] eqn:Hdigits; [|discriminate].
    destruct (Sample.unit_ns u) as [k|] eqn:Hunit; [|discriminate].
    destruct (n * k <? 2 ^ 63) eqn:Hlt; [|discriminate]. intros [= <-].
    apply digits1_nonneg in Hdigits. apply Z.ltb_lt in Hlt.
    assert (Hk : 0 < k).
    { unfold Sample.unit_ns in Hunit.
      repeat match type of Hunit with
             | (if ?b then _ else _) = _ => destruct b
             end; try discriminate; injection Hunit as <-; lia. }
    unfold int_in_range.
    apply andb_true_intro. split; [apply Z.leb_le | apply Z.ltb_lt]; nia.
  - discriminate.
  - auto.
  - discriminate.
Qed.

Lemma Load_typed_witness :
  exists vs',
    fst (Load (P := Scenarios.platform) Scenarios.override_os
           Scenarios.from_file
           (StructPointer TestTypes.TestConfig (zeros TestTypes.TestConfig)))
    = StructPointer TestTypes.TestConfig vs'
    /\ have_types TestTypes.TestConfig vs' = true.
Proof.
  apply (Load_typed (P := Scenarios.platform) Scenarios.override_os
           Scenarios.from_file (sample_platform_typed Scenarios.decode));
    [simpl; tauto|reflexivity].
Defined.
